(** * steps-hockeyapp-android-deploy: a shallow embedding of [step.go]

    The step reads its configuration from the process environment,
    validates two paths and a token, builds one multipart POST request,
    sends it, classifies the response and exports up to four key/value
    pairs through the external [envman] tool.

    The program is embedded as a computation in a small state-and-exit
    monad.  Everything outside the program text (environment variables,
    the file system, the network, [envman], the JSON scanner of
    [encoding/json], the iteration order of Go maps) is a field of the
    record [World]; the process state [Proc] holds what the run has done
    so far: the interactions with the outside, in order, and the files it
    has opened and not closed. *)

From Stdlib Require Import ZArith String Ascii Lia.
From stdpp Require Import base strings gmap list pretty.

(** ** Go values *)

(** What the program can observe of a value of the [error] interface:
    its [Error()] text (the [%s] verb), its Go-syntax rendering (the
    [%#v] verb) and the answer of [os.IsNotExist]. *)
Record error := mkError {
  err_Error : string;
  err_GoString : string;
  err_IsNotExist : bool;
}.

Definition DQUOTE : string := String (ascii_of_nat 34) "".
Definition ESC : string := String (ascii_of_nat 27) "".
Definition LF : string := String (ascii_of_nat 10) "".

(** [errors.New] *)
Definition errors_New (s : string) : error :=
  mkError s ("&errors.errorString{s:" +:+ DQUOTE +:+ s +:+ DQUOTE +:+ "}") false.

(** [os.FileInfo]: never inspected by the step. *)
Record FileInfo := mkFileInfo {
  fi_Name : string;
  fi_IsDir : bool;
}.

(** An [*os.File] as [io.Copy] sees it: the bytes it delivers and the
    error, if any, that ends the read ([nil] on a clean end of file). *)
Record File := mkFile {
  f_name : string;
  f_data : string;
  f_readErr : option error;
}.

(** The body that [multipart.Writer] accumulates in its [bytes.Buffer],
    kept as the sequence of parts rather than as encoded bytes. *)
Inductive Part :=
| FieldPart (fieldname value : string)
| FilePart (fieldname filename content : string).

Record Writer := mkWriter {
  mw_boundary : string;
  mw_parts : list Part;
  mw_closed : bool;
}.

(** [*http.Request] *)
Record Request := mkRequest {
  Method : string;
  URL : string;
  Header : gmap string (list string);
  ReqBody : Writer;
}.

(** [*http.Response]: the status code and what [ioutil.ReadAll] gets out
    of [Body] (the bytes read, and the read error if there is one). *)
Record Response := mkResponse {
  StatusCode : Z;
  Body : string * option error;
}.

(** JSON values as the scanner of [encoding/json] delivers them. *)
Unset Elimination Schemes.
Inductive json :=
| JNull
| JBool (b : bool)
| JNumber (literal : string)
| JString (s : string)
| JArray (elems : list json)
| JObject (members : list (string * json)).
Set Elimination Schemes.

(** ** Constants (step.go, lines 21-28) *)

Definition hockeyAppDeployStatusKey : string := "HOCKEYAPP_DEPLOY_STATUS".
Definition hockeyAppDeployStatusSuccess : string := "success".
Definition hockeyAppDeployStatusFailed : string := "failed".
Definition hockeyAppDeployPublicURLKey : string := "HOCKEYAPP_DEPLOY_PUBLIC_URL".
Definition hockeyAppDeployBuildURLKey : string := "HOCKEYAPP_DEPLOY_BUILD_URL".
Definition hockeyAppDeployConfigURLKey : string := "HOCKEYAPP_DEPLOY_CONFIG_URL".

(** ** Models (step.go, lines 35-39) *)

Record ResponseModel := mkResponseModel {
  ConfigURL : string;
  PublicURL : string;
  BuildURL : string;
}.

(** [var responseModel ResponseModel]: the zero value. *)
Definition zeroResponseModel : ResponseModel := mkResponseModel "" "" "".

(** ** The outside world *)

Record World := mkWorld {
  (** the process environment read by [os.Getenv] *)
  environ : gmap string string;
  (** [os.Stat] *)
  os_Stat : string → FileInfo + error;
  (** [os.Open] *)
  os_Open : string → File + error;
  (** the order in which [range] visits a [map[string]string] *)
  go_range : gmap string string → list (string * string);
  (** the random boundary chosen by [multipart.NewWriter] *)
  multipart_boundary : string;
  (** [http.NewRequest]: the error for a URL it cannot parse *)
  url_Parse_err : string → option error;
  (** [http.Client.Do] *)
  http_Do : Request → option Response * option error;
  (** running [envman add --key k] with [v] on standard input *)
  envman_Run : string → string → option error;
  (** the syntax layer of [encoding/json] *)
  json_scan : string → json + error;
  (** [*json.UnmarshalTypeError] for a JSON value of the given kind met
      at the given struct field (empty at top level) *)
  json_UnmarshalTypeError : string → string → error;
}.

(** ** The process *)

Inductive event :=
| EvStdout (s : string)            (* a write to os.Stdout *)
| EvEnvman (key value : string)    (* envman add --key key, value on stdin *)
| EvCreateRequest (url : string)   (* a call of createRequest *)
| EvOpen (pth : string)            (* os.Open pth *)
| EvHTTPDo (req : Request)         (* client.Do req *)
| EvUnmarshal (data : string)      (* json.Unmarshal data *)
| EvBodyClose.                     (* response.Body.Close() *)

Record Proc := mkProc {
  trace : list event;        (* oldest first *)
  unclosed_files : list string;
}.

(** [unclosed_files] has one entry, the path, for every successful
    [os.Open] whose file the program has not closed.  [step.go] has no
    call of [Close] on a file, so nothing in the program removes an entry.
    The field records what the program did, not the descriptors the kernel
    holds: the Go runtime closes the descriptor of an [*os.File] that has
    become unreachable if and when its finalizer runs, and that is not
    decided here. *)

Definition startProc : Proc := mkProc [] [].

Inductive outcome (A : Type) :=
| Returned (a : A)
| Exited (code : Z)
| Panicked (msg : string).
Arguments Returned {A} a.
Arguments Exited {A} code.
Arguments Panicked {A} msg.

Definition Run (A : Type) : Type := Proc → outcome A * Proc.

#[global] Instance Run_ret : MRet Run := λ A a σ, (Returned a, σ).

#[global] Instance Run_bind : MBind Run := λ A B k m σ,
  match m σ with
  | (Returned a, σ') => k a σ'
  | (Exited c, σ') => (Exited c, σ')
  | (Panicked msg, σ') => (Panicked msg, σ')
  end.

Definition emit (e : event) : Run unit :=
  λ σ, (Returned tt, mkProc (trace σ ++ [e]) (unclosed_files σ)).

(** [os.Exit] *)
Definition os_Exit {A} (code : Z) : Run A := λ σ, (Exited code, σ).

(** A run-time panic. *)
Definition panic {A} (msg : string) : Run A := λ σ, (Panicked msg, σ).

(** The exit status the operating system sees: 0 when [main] returns,
    the argument of [os.Exit], 2 for a panic. *)
Definition exit_status {A} (o : outcome A) : Z :=
  match o with
  | Returned _ => 0
  | Exited c => c
  | Panicked _ => 2
  end.

(** [os.Getenv]: the empty string for an unset variable. *)
Definition os_Getenv (w : World) (key : string) : string :=
  default "" (environ w !! key).

(** [fmt.Printf] and [fmt.Println()] *)
Definition fmt_Printf (s : string) : Run unit := emit (EvStdout s).
Definition fmt_Println : Run unit := emit (EvStdout LF).

(** ** Functions (step.go, lines 45-140) *)

Definition exportEnvironmentWithEnvman (w : World) (keyStr valueStr : string)
  : Run (option error) :=
  emit (EvEnvman keyStr valueStr);;
  mret (envman_Run w keyStr valueStr).

Definition logWarn (errorMsg : string) : Run unit :=
  fmt_Printf (ESC +:+ "[33;1m" +:+ errorMsg +:+ ESC +:+ "[0m" +:+ LF).

Definition logFail {A} (w : World) (errorMsg : string) : Run A :=
  err ← exportEnvironmentWithEnvman w hockeyAppDeployStatusKey hockeyAppDeployStatusFailed;
  match err with
  | Some e => logWarn ("Failed to export " +:+ hockeyAppDeployStatusKey
                       +:+ ", error: " +:+ err_Error e)
  | None => mret tt
  end;;
  fmt_Printf (ESC +:+ "[31;1m" +:+ errorMsg +:+ ESC +:+ "[0m" +:+ LF);;
  os_Exit 1.

Definition logInfo (errorMsg : string) : Run unit :=
  fmt_Println;;
  fmt_Printf (ESC +:+ "[34;1m" +:+ errorMsg +:+ ESC +:+ "[0m" +:+ LF).

Definition logDetails (errorMsg : string) : Run unit :=
  fmt_Printf ("  " +:+ errorMsg +:+ LF).

Definition logDone (errorMsg : string) : Run unit :=
  fmt_Printf ("  " +:+ ESC +:+ "[32;1m" +:+ errorMsg +:+ ESC +:+ "[0m" +:+ LF).

Definition genericIsPathExists (w : World) (pth : string)
  : option FileInfo * bool * option error :=
  if decide (pth = "") then (None, false, Some (errors_New "No path provided"))
  else match os_Stat w pth with
       | inl fileInf => (Some fileInf, true, None)
       | inr err =>
           if err_IsNotExist err then (None, false, None)
           else (None, false, Some err)
       end.

Definition IsPathExists (w : World) (pth : string) : bool * option error :=
  let '(_, isExists, err) := genericIsPathExists w pth in
  (isExists, err).

(** *** [createRequest] (lines 104-140) *)

Definition multipart_NewWriter (w : World) : Writer :=
  mkWriter (multipart_boundary w) [] false.

(** [w.WriteField]: the writer sits on a [bytes.Buffer], whose [Write]
    never returns an error. *)
Definition WriteField (mw : Writer) (key value : string) : Writer * option error :=
  (mkWriter (mw_boundary mw) (mw_parts mw ++ [FieldPart key value]) (mw_closed mw),
   None).

(** [w.CreateFormFile]: opens a new file part; what is written to the
    returned [io.Writer] goes into that part. *)
Definition CreateFormFile (mw : Writer) (fieldname filename : string)
  : Writer * option error :=
  (mkWriter (mw_boundary mw) (mw_parts mw ++ [FilePart fieldname filename ""])
            (mw_closed mw),
   None).

Definition part_write (data : string) (p : Part) : Part :=
  match p with
  | FieldPart n v => FieldPart n (v +:+ data)
  | FilePart n fn c => FilePart n fn (c +:+ data)
  end.

Fixpoint last_part_write (data : string) (ps : list Part) : list Part :=
  match ps with
  | [] => []
  | [p] => [part_write data p]
  | p :: ps' => p :: last_part_write data ps'
  end.

(** [io.Copy(fw, f)]: everything [f] delivers is written to the open
    part; the error is the one that ended the read, if any. *)
Definition io_Copy (fw : Writer) (f : File) : Writer * option error :=
  (mkWriter (mw_boundary fw) (last_part_write (f_data f) (mw_parts fw)) (mw_closed fw),
   f_readErr f).

(** [w.Close()] *)
Definition Writer_Close (mw : Writer) : Writer :=
  mkWriter (mw_boundary mw) (mw_parts mw) true.

Definition FormDataContentType (mw : Writer) : string :=
  "multipart/form-data; boundary=" +:+ mw_boundary mw.

(** [os.Open]: a successful call gives the process one more file that it
    has opened and not closed. *)
Definition open (w : World) (file : string) : Run (File + error) := λ σ,
  match os_Open w file with
  | inl f => (Returned (inl f),
              mkProc (trace σ ++ [EvOpen file]) (unclosed_files σ ++ [file]))
  | inr err => (Returned (inr err),
                mkProc (trace σ ++ [EvOpen file]) (unclosed_files σ))
  end.

Definition http_NewRequest (w : World) (method url : string) (body : Writer)
  : Request + error :=
  match url_Parse_err w url with
  | Some err => inr err
  | None => inl (mkRequest method url ∅ body)
  end.

Definition Header_Set (req : Request) (key value : string) : Request :=
  mkRequest (Method req) (URL req) (<[key := [value]]> (Header req)) (ReqBody req).

Definition Header_Add (req : Request) (key value : string) : Request :=
  mkRequest (Method req) (URL req)
            (<[key := default [] (Header req !! key) ++ [value]]> (Header req))
            (ReqBody req).

(** The loop of lines 109-113 over the entries in the order [range]
    yields them. *)
Fixpoint addFields (entries : list (string * string)) (mw : Writer)
  : Writer + error :=
  match entries with
  | [] => inl mw
  | (key, value) :: rest =>
      match WriteField mw key value with
      | (_, Some err) => inr err
      | (mw', None) => addFields rest mw'
      end
  end.

(** The loop of lines 116-128.  No path through it closes [f]. *)
Fixpoint addFiles (w : World) (entries : list (string * string)) (mw : Writer)
  : Run (Writer + error) :=
  match entries with
  | [] => mret (inl mw)
  | (key, file) :: rest =>
      r ← open w file;
      match r with
      | inr err => mret (inr err)
      | inl f =>
          match CreateFormFile mw key file with
          | (_, Some err) => mret (inr err)
          | (fw, None) =>
              match io_Copy fw f with
              | (_, Some err) => mret (inr err)
              | (mw', None) => addFiles w rest mw'
              end
          end
      end
  end.

Definition createRequest (w : World) (url : string) (fields files : gmap string string)
  : Run (Request + error) :=
  emit (EvCreateRequest url);;
  match addFields (go_range w fields) (multipart_NewWriter w) with
  | inr err => mret (inr err)
  | inl mw =>
      r ← addFiles w (go_range w files) mw;
      match r with
      | inr err => mret (inr err)
      | inl mw =>
          let mw := Writer_Close mw in
          match http_NewRequest w "POST" url mw with
          | inr err => mret (inr err)
          | inl req =>
              mret (inl (Header_Set req "Content-Type" (FormDataContentType mw)))
          end
      end
  end.

(** ** [json.Unmarshal] into a [ResponseModel]

    The struct tags of lines 36-38 name the three JSON keys.  The decoder
    matches an object key to a field by its tag, exactly or, failing
    that, ignoring the case of ASCII letters; a string value is stored,
    [null] leaves the field as it is, any other value is a type error
    that is remembered (the first one is returned) while decoding goes
    on; keys that match no field are skipped. *)

Inductive field := FConfigURL | FPublicURL | FBuildURL.

Definition field_tag (f : field) : string :=
  match f with
  | FConfigURL => "config_url"
  | FPublicURL => "public_url"
  | FBuildURL => "build_url"
  end.

Definition get_field (f : field) (v : ResponseModel) : string :=
  match f with
  | FConfigURL => ConfigURL v
  | FPublicURL => PublicURL v
  | FBuildURL => BuildURL v
  end.

Definition set_field (f : field) (s : string) (v : ResponseModel) : ResponseModel :=
  match f with
  | FConfigURL => mkResponseModel s (PublicURL v) (BuildURL v)
  | FPublicURL => mkResponseModel (ConfigURL v) s (BuildURL v)
  | FBuildURL => mkResponseModel (ConfigURL v) (PublicURL v) s
  end.

Definition struct_fields : list field := [FConfigURL; FPublicURL; FBuildURL].

Definition is_ascii_letter (c : ascii) : bool :=
  let n := N_of_ascii c in
  ((65 <=? n) && (n <=? 90) || (97 <=? n) && (n <=? 122))%N.

(** The byte with the case bit (0x20) cleared. *)
Definition caseMasked (c : ascii) : N := N.land (N_of_ascii c) 223.

(** [asciiEqualFold s t]: [s] is the tag, [t] the key. *)
Fixpoint asciiEqualFold (s t : string) : bool :=
  match s, t with
  | EmptyString, EmptyString => true
  | String sb s', String tb t' =>
      (if Ascii.eqb sb tb then true
       else if is_ascii_letter sb then (caseMasked sb =? caseMasked tb)%N
       else false)
      && asciiEqualFold s' t'
  | _, _ => false
  end.

(** The field a key is decoded into: an exact match of the tag if there
    is one, otherwise the first field whose tag matches ignoring case. *)
Definition find_field (key : string) : option field :=
  match find (λ f, String.eqb (field_tag f) key) struct_fields with
  | Some f => Some f
  | None => find (λ f, asciiEqualFold (field_tag f) key) struct_fields
  end.

Definition json_kind (j : json) : string :=
  match j with
  | JNull => "null"
  | JBool _ => "bool"
  | JNumber _ => "number"
  | JString _ => "string"
  | JArray _ => "array"
  | JObject _ => "object"
  end.

Definition decode_member (w : World) (acc : ResponseModel * option error)
    (kv : string * json) : ResponseModel * option error :=
  match find_field kv.1 with
  | None => acc
  | Some f =>
      match kv.2 with
      | JString s => (set_field f s acc.1, acc.2)
      | JNull => acc
      | other =>
          (acc.1,
           match acc.2 with
           | Some e => Some e
           | None => Some (json_UnmarshalTypeError w (json_kind other) (field_tag f))
           end)
      end
  end.

Definition decode_value (w : World) (j : json) (v : ResponseModel)
  : ResponseModel * option error :=
  match j with
  | JObject members => foldl (decode_member w) (v, None) members
  | JNull => (v, None)
  | other => (v, Some (json_UnmarshalTypeError w (json_kind other) ""))
  end.

(** [json.Unmarshal(data, &v)]: the input is checked for syntax before
    anything is stored. *)
Definition json_Unmarshal (w : World) (data : string) (v : ResponseModel)
  : Run (ResponseModel * option error) :=
  emit (EvUnmarshal data);;
  match json_scan w data with
  | inr err => mret (v, Some err)
  | inl j => mret (decode_value w j v)
  end.

(** [client.Do] *)
Definition client_Do (w : World) (req : Request)
  : Run (option Response * option error) :=
  emit (EvHTTPDo req);;
  mret (http_Do w req).

(** [ioutil.ReadAll(response.Body)] *)
Definition ioutil_ReadAll (response : Response) : string * option error :=
  Body response.

(** ** [main] (lines 146-314) *)

(** The local variables of lines 149-168. *)
Record Inputs := mkInputs {
  apkPath : string;
  mappingPath : string;
  apiToken : string;
  appID : string;
  notes : string;
  notesType : string;
  notify : string;
  status : string;
  tags : string;
  commitSHA : string;
  buildServerURL : string;
  repositoryURL : string;
  mandatory : string;
}.

(** Lines 162-168: 0 - not mandatory (default), 1 - mandatory. *)
Definition mandatoryFlag (env_mandatory : string) : string :=
  if bool_decide (env_mandatory = "1") || bool_decide (env_mandatory = "true")
  then "1" else "0".

Definition readInputs (w : World) : Inputs :=
  {| apkPath := os_Getenv w "apk_path";
     mappingPath := os_Getenv w "mapping_path";
     apiToken := os_Getenv w "api_token";
     appID := os_Getenv w "app_id";
     notes := os_Getenv w "notes";
     notesType := os_Getenv w "notes_type";
     notify := os_Getenv w "notify";
     status := os_Getenv w "status";
     tags := os_Getenv w "tags";
     commitSHA := os_Getenv w "commit_sha";
     buildServerURL := os_Getenv w "build_server_url";
     repositoryURL := os_Getenv w "repository_url";
     mandatory := mandatoryFlag (os_Getenv w "mandatory") |}.

(** Lines 170-183. *)
Definition logConfigs (i : Inputs) : Run unit :=
  logInfo "Configs:";;
  logDetails ("apk_path: " +:+ apkPath i);;
  logDetails ("mapping_path: " +:+ mappingPath i);;
  logDetails "api_token: ***";;
  logDetails ("app_id: " +:+ appID i);;
  logDetails ("notes: " +:+ notes i);;
  logDetails ("notes_type: " +:+ notesType i);;
  logDetails ("notify: " +:+ notify i);;
  logDetails ("status: " +:+ status i);;
  logDetails ("mandatory: " +:+ mandatory i);;
  logDetails ("tags: " +:+ tags i);;
  logDetails ("commit_sha: " +:+ commitSHA i);;
  logDetails ("build_server_url: " +:+ buildServerURL i);;
  logDetails ("repository_url: " +:+ repositoryURL i).

(** Lines 185-200: the two path checks. *)
Definition checkPaths (w : World) (apkPath mappingPath : string) : Run unit :=
  (if decide (apkPath = "") then logFail w "Missing required input: apk_path"
   else mret tt);;
  match IsPathExists w apkPath with
  | (_, Some err) =>
      logFail w ("Failed to check if apk (" +:+ apkPath +:+ ") exist, error: "
                 +:+ err_GoString err)
  | (exist', None) =>
      if negb exist'
      then logFail w ("No apk found to deploy. Specified path was: " +:+ apkPath)
      else mret tt
  end;;
  if decide (mappingPath ≠ "") then
    match IsPathExists w mappingPath with
    | (_, Some err) =>
        logFail w ("Failed to check if mapping (" +:+ mappingPath
                   +:+ ") exist, error: " +:+ err_GoString err)
    | (exist', None) =>
        if negb exist'
        then logFail w ("No mapping found to deploy. Specified path was: "
                        +:+ mappingPath)
        else mret tt
    end
  else mret tt.

(** Lines 202-204. *)
Definition checkToken (w : World) (apiToken : string) : Run unit :=
  if decide (apiToken = "")
  then logFail w "No App api_token provided as environment variable. Terminating..."
  else mret tt.

(** Lines 210-213. *)
Definition requestURL (appID : string) : string :=
  if decide (appID ≠ "")
  then "https://rink.hockeyapp.net/api/2/apps/" +:+ appID +:+ "/app_versions/upload"
  else "https://rink.hockeyapp.net/api/2/apps/upload".

(** Lines 215-225. *)
Definition requestFields (i : Inputs) : gmap string string :=
  list_to_map
    [("notes", notes i);
     ("notes_type", notesType i);
     ("notify", notify i);
     ("status", status i);
     ("mandatory", mandatory i);
     ("tags", tags i);
     ("commit_sha", commitSHA i);
     ("build_server_url", buildServerURL i);
     ("repository_url", repositoryURL i)].

(** Lines 227-232. *)
Definition requestFiles (apkPath mappingPath : string) : gmap string string :=
  let files : gmap string string := {[ "ipa" := apkPath ]} in
  if decide (mappingPath ≠ "") then <["dsym" := mappingPath]> files else files.

(** Line 261. *)
Definition statusCodeFailed (code : Z) : bool :=
  ((code <? 200) || (code >? 300))%Z.

(** The block of lines 251-257, repeated at lines 262-268. *)
Definition logFailedResponse (response : Response) (contents : string)
    (readErr : option error) : Run unit :=
  match readErr with
  | Some e => logWarn ("Failed to read response body, error: " +:+ err_GoString e)
  | None =>
      logInfo "Response:";;
      logDetails ("status code: " +:+ pretty (StatusCode response));;
      logDetails ("body: " +:+ contents)
  end.

(** Lines 299-313: one export on the success path. *)
Definition exportOrFail (w : World) (key value : string) : Run unit :=
  err ← exportEnvironmentWithEnvman w key value;
  match err with
  | Some e => logFail w ("Failed to export " +:+ key +:+ ", error: " +:+ err_GoString e)
  | None => mret tt
  end.

(** Lines 288-297. *)
Definition logURLs (responseModel : ResponseModel) : Run unit :=
  fmt_Println;;
  (if decide (PublicURL responseModel ≠ "")
   then logDone ("Public URL: " +:+ PublicURL responseModel) else mret tt);;
  (if decide (BuildURL responseModel ≠ "")
   then logDone ("Build (direct download) URL: " +:+ BuildURL responseModel)
   else mret tt);;
  if decide (ConfigURL responseModel ≠ "")
  then logDone ("Config URL: " +:+ ConfigURL responseModel) else mret tt.

(** Lines 250-313. *)
Definition processResponse (w : World) (response : Response)
    (requestErr : option error) (contents : string) (readErr : option error)
  : Run unit :=
  match requestErr with
  | Some e =>
      logFailedResponse response contents readErr;;
      logFail w ("Performing request failed, error: " +:+ err_GoString e)
  | None => mret tt
  end;;
  (if statusCodeFailed (StatusCode response) then
     logFailedResponse response contents readErr;;
     logFail w ("Performing request failed, status code: "
                +:+ pretty (StatusCode response))
   else mret tt);;
  logDone "Request succed";;
  logInfo "Response:";;
  logDetails ("status code: " +:+ pretty (StatusCode response));;
  logDetails ("body: " +:+ contents);;
  match readErr with
  | Some e => logFail w ("Failed to read response body, error: " +:+ err_GoString e)
  | None => mret tt
  end;;
  '(responseModel, err) ← json_Unmarshal w contents zeroResponseModel;
  match err with
  | Some e => logFail w ("Failed to parse response body, error: " +:+ err_GoString e)
  | None => mret tt
  end;;
  logURLs responseModel;;
  exportOrFail w hockeyAppDeployStatusKey hockeyAppDeployStatusSuccess;;
  exportOrFail w hockeyAppDeployPublicURLKey (PublicURL responseModel);;
  exportOrFail w hockeyAppDeployBuildURLKey (BuildURL responseModel);;
  exportOrFail w hockeyAppDeployConfigURLKey (ConfigURL responseModel).

(** Lines 185-204. *)
Definition validateInputs (w : World) (i : Inputs) : Run unit :=
  checkPaths w (apkPath i) (mappingPath i);;
  checkToken w (apiToken i).

(** Lines 185-237: everything between the configuration log and the
    moment the request exists. *)
Definition prepareRequest (w : World) (i : Inputs) : Run Request :=
  validateInputs w i;;
  logInfo "Performing request";;
  r ← createRequest w (requestURL (appID i)) (requestFields i)
        (requestFiles (apkPath i) (mappingPath i));
  match r with
  | inr err => logFail w ("Failed to create request, error: " +:+ err_GoString err)
  | inl request => mret request
  end.

Definition nil_dereference : string :=
  "runtime error: invalid memory address or nil pointer dereference".

(** Lines 238-313.  [defer response.Body.Close()] evaluates
    [response.Body] where it stands, on line 243: with a nil [response]
    that is a nil pointer dereference.  The deferred call itself runs
    when [main] returns, and not when [os.Exit] ends the process. *)
Definition sendRequest (w : World) (i : Inputs) (request : Request) : Run unit :=
  let request := Header_Add request "X-HockeyAppToken" (apiToken i) in
  '(response, requestErr) ← client_Do w request;
  match response with
  | None => panic nil_dereference
  | Some response =>
      let '(contents, readErr) := ioutil_ReadAll response in
      processResponse w response requestErr contents readErr;;
      emit EvBodyClose
  end.

Definition main (w : World) : Run unit :=
  let i := readInputs w in
  logConfigs i;;
  request ← prepareRequest w i;
  sendRequest w i request.

(** One run of the step, from a fresh process. *)
Definition run (w : World) : outcome unit * Proc := main w startProc.

(** ** Reading a trace *)

(** The [envman] invocations: key and value, in order. *)
Definition exported (tr : list event) : list (string * string) :=
  omap (λ e, match e with EvEnvman k v => Some (k, v) | _ => None end) tr.

(** What was written to standard output, in order. *)
Definition printed (tr : list event) : list string :=
  omap (λ e, match e with EvStdout s => Some s | _ => None end) tr.

(** The requests handed to [client.Do]. *)
Definition network_calls (tr : list event) : list Request :=
  omap (λ e, match e with EvHTTPDo req => Some req | _ => None end) tr.

(** The URLs [createRequest] was called with. *)
Definition createRequest_calls (tr : list event) : list string :=
  omap (λ e, match e with EvCreateRequest url => Some url | _ => None end) tr.

(** The bodies handed to [json.Unmarshal]. *)
Definition unmarshal_calls (tr : list event) : list string :=
  omap (λ e, match e with EvUnmarshal data => Some data | _ => None end) tr.

(** The paths handed to [os.Open]. *)
Definition opened (tr : list event) : list string :=
  omap (λ e, match e with EvOpen pth => Some pth | _ => None end) tr.

Definition is_HTTPDo (e : event) : bool :=
  match e with EvHTTPDo _ => true | _ => false end.

(** The part of a trace that precedes the first network call (all of it
    when there is none). *)
Fixpoint before_network (tr : list event) : list event :=
  match tr with
  | [] => []
  | e :: tr' => if is_HTTPDo e then [] else e :: before_network tr'
  end.

(** What [createRequest] does to the file system, as functions of the
    entries of [files] in iteration order: the paths it tries to open, and
    the paths it does open.  The loop stops at the first file that cannot
    be opened or cannot be read to its end. *)
Fixpoint files_attempted (w : World) (entries : list (string * string)) : list string :=
  match entries with
  | [] => []
  | (_, file) :: rest =>
      file :: match os_Open w file with
              | inl f => match f_readErr f with
                         | None => files_attempted w rest
                         | Some _ => []
                         end
              | inr _ => []
              end
  end.

Fixpoint files_opened (w : World) (entries : list (string * string)) : list string :=
  match entries with
  | [] => []
  | (_, file) :: rest =>
      match os_Open w file with
      | inl f => file :: match f_readErr f with
                         | None => files_opened w rest
                         | Some _ => []
                         end
      | inr _ => []
      end
  end.

(** ** Vocabulary of the properties *)

(** The lines of a call of [logInfo]. *)
Definition info_lines (errorMsg : string) : list string :=
  printed (trace (logInfo errorMsg startProc).2).

(** The events of a call of [logFail]. *)
Definition logFail_events (w : World) (errorMsg : string) : list event :=
  trace (logFail (A:=unit) w errorMsg startProc).2.

(** The lines of the configuration log. *)
Definition config_lines (i : Inputs) : list string :=
  printed (trace (logConfigs i startProc).2).

(** The inputs pass the checks of lines 185-204. *)
Definition inputs_valid (w : World) (i : Inputs) : Prop :=
  apkPath i ≠ ""
  ∧ IsPathExists w (apkPath i) = (true, None)
  ∧ (mappingPath i ≠ "" → IsPathExists w (mappingPath i) = (true, None))
  ∧ apiToken i ≠ "".

(** The request that [createRequest] hands to [main]: a POST to the
    upload URL whose body has a part for every scalar field visited. *)
Definition request_built (w : World) (i : Inputs) (request : Request) : Prop :=
  Method request = "POST"
  ∧ URL request = requestURL (appID i)
  ∧ ∀ key value, (key, value) ∈ go_range w (requestFields i) →
                 FieldPart key value ∈ mw_parts (ReqBody request).

(** [range] visits every entry of a map. *)
Definition range_visits_all (w : World) : Prop :=
  ∀ (m : gmap string string) key value,
    m !! key = Some value → (key, value) ∈ go_range w m.

(** The run up to the moment the request is sent. *)
Definition request_events (w : World) (i : Inputs) : list event :=
  (EvStdout <$> config_lines i)
  ++ (EvStdout <$> info_lines "Performing request")
  ++ EvCreateRequest (requestURL (appID i))
     :: (EvOpen <$> files_attempted w
           (go_range w (requestFiles (apkPath i) (mappingPath i)))).

Definition request_files (w : World) (i : Inputs) : list string :=
  files_opened w (go_range w (requestFiles (apkPath i) (mappingPath i))).

(** The run up to the moment the request exists. *)
Definition preNetwork (w : World) : outcome Request * Proc :=
  (logConfigs (readInputs w);; prepareRequest w (readInputs w)) startProc.

(** A configuration input is missing or empty. *)
Definition missing_or_empty (w : World) (key : string) : Prop :=
  environ w !! key = None ∨ environ w !! key = Some "".

(** The existence check of a path does not answer "exists": it reports an
    error, or it reports that nothing is there. *)
Definition path_check_fails (w : World) (pth : string) : Prop :=
  (IsPathExists w pth).2 ≠ None ∨ (IsPathExists w pth).1 = false.

Definition failed_export : list (string * string) :=
  [(hockeyAppDeployStatusKey, hockeyAppDeployStatusFailed)].

Definition success_exports (v : ResponseModel) : list (string * string) :=
  [(hockeyAppDeployStatusKey, hockeyAppDeployStatusSuccess);
   (hockeyAppDeployPublicURLKey, PublicURL v);
   (hockeyAppDeployBuildURLKey, BuildURL v);
   (hockeyAppDeployConfigURLKey, ConfigURL v)].

(** What follows the network call, by the answer of [client.Do]: the
    outcome of the process and the events after the call. *)
Inductive answered (w : World) :
  option Response → option error → outcome unit → list event → Prop :=
| NilResponse requestErr :
    answered w None requestErr (Panicked nil_dereference) []
| TransportFailure response e evs :
    exported evs = failed_export →
    unmarshal_calls evs = [] →
    answered w (Some response) (Some e) (Exited 1) evs
| HTTPFailure response evs :
    statusCodeFailed (StatusCode response) = true →
    exported evs = failed_export →
    unmarshal_calls evs = [] →
    answered w (Some response) None (Exited 1) evs
| BodyReadFailure response e evs :
    statusCodeFailed (StatusCode response) = false →
    (Body response).2 = Some e →
    exported evs = failed_export →
    unmarshal_calls evs = [] →
    answered w (Some response) None (Exited 1) evs
| ParseFailure response v e evs :
    statusCodeFailed (StatusCode response) = false →
    (Body response).2 = None →
    match json_scan w (Body response).1 with
    | inr e' => v = zeroResponseModel ∧ e = e'
    | inl j => decode_value w j zeroResponseModel = (v, Some e)
    end →
    exported evs = failed_export →
    unmarshal_calls evs = [(Body response).1] →
    answered w (Some response) None (Exited 1) evs
| ExportFailure response j v n kv e evs :
    statusCodeFailed (StatusCode response) = false →
    (Body response).2 = None →
    json_scan w (Body response).1 = inl j →
    decode_value w j zeroResponseModel = (v, None) →
    success_exports v !! n = Some kv →
    envman_Run w kv.1 kv.2 = Some e →
    exported evs = take (S n) (success_exports v) ++ failed_export →
    unmarshal_calls evs = [(Body response).1] →
    answered w (Some response) None (Exited 1) evs
| Success response j v evs :
    statusCodeFailed (StatusCode response) = false →
    (Body response).2 = None →
    json_scan w (Body response).1 = inl j →
    decode_value w j zeroResponseModel = (v, None) →
    exported evs = success_exports v →
    unmarshal_calls evs = [(Body response).1] →
    answered w (Some response) None (Returned tt) evs.

(** No member of the object is decoded into field [f]. *)
Definition field_absent (f : field) (members : list (string * json)) : Prop :=
  ∀ kv, kv ∈ members → find_field kv.1 ≠ Some f.

(** The body carries the string [s] for field [f]: a member decoded into
    [f] has the string value [s], and no later member is decoded into [f]. *)
Definition json_string_field (f : field) (j : json) (s : string) : Prop :=
  match j with
  | JObject members =>
      ∃ pre key post,
        members = pre ++ (key, JString s) :: post
        ∧ find_field key = Some f
        ∧ field_absent f post
  | _ => False
  end.

(** The body carries nothing for field [f]. *)
Definition json_field_absent (f : field) (j : json) : Prop :=
  match j with
  | JObject members => field_absent f members
  | JNull => True
  | _ => False
  end.

(** A member that is decoded into a field holds a string or [null]. *)
Definition member_well_typed (kv : string * json) : Prop :=
  match find_field kv.1 with
  | None => True
  | Some _ => match kv.2 with JString _ | JNull => True | _ => False end
  end.

(** The JSON fields of the response as the service names them, told
    apart from the decoder above: the three member names, and what it
    means for a body to carry a string under a name or to carry nothing
    under it.  A key bears a name when it is the name up to the case of
    its ASCII letters. *)
Definition url_names : list string := ["config_url"; "public_url"; "build_url"].

Definition is_capital (c : ascii) : bool :=
  let n := N_of_ascii c in ((65 <=? n) && (n <=? 90))%N.

Definition ascii_lower (c : ascii) : ascii :=
  if is_capital c then ascii_of_N (N_of_ascii c + 32) else c.

Fixpoint lower_case (s : string) : string :=
  match s with
  | EmptyString => EmptyString
  | String c s' => String (ascii_lower c) (lower_case s')
  end.

Fixpoint no_capital (s : string) : bool :=
  match s with
  | EmptyString => true
  | String c s' => negb (is_capital c) && no_capital s'
  end.

(** The body is an object with a member [name] whose value is the string
    [s], and no later member bears that name. *)
Definition json_carries (name : string) (j : json) (s : string) : Prop :=
  match j with
  | JObject members =>
      ∃ pre post,
        members = pre ++ (name, JString s) :: post
        ∧ ∀ kv, kv ∈ post → lower_case kv.1 ≠ name
  | _ => False
  end.

(** The body is [null], or an object none of whose members bears the
    name. *)
Definition json_lacks (name : string) (j : json) : Prop :=
  match j with
  | JObject members => ∀ kv, kv ∈ members → lower_case kv.1 ≠ name
  | JNull => True
  | _ => False
  end.

(** A member that bears one of the three names holds a string or
    [null]. *)
Definition url_member_typed (kv : string * json) : Prop :=
  lower_case kv.1 ∈ url_names →
  match kv.2 with JString _ | JNull => True | _ => False end.

(** All 256 bytes, and the comparison of one byte of a tag with one byte
    of a key as [asciiEqualFold] makes it, checked against [ascii_lower]. *)
Definition all_bytes : list ascii := ascii_of_nat <$> seq 0 256.

Definition fold_byte_agrees (sb tb : ascii) : bool :=
  is_capital sb
  || bool_decide
       ((if Ascii.eqb sb tb then true
         else if is_ascii_letter sb then (caseMasked sb =? caseMasked tb)%N
         else false)
        = Ascii.eqb (ascii_lower tb) sb).

(** The same world with another value of [api_token]. *)
Definition with_token (t : string) (w : World) : World :=
  mkWorld (<["api_token" := t]> (environ w)) (os_Stat w) (os_Open w) (go_range w)
          (multipart_boundary w) (url_Parse_err w) (http_Do w) (envman_Run w)
          (json_scan w) (json_UnmarshalTypeError w).

Definition set_apiToken (t : string) (i : Inputs) : Inputs :=
  mkInputs (apkPath i) (mappingPath i) t (appID i) (notes i) (notesType i)
           (notify i) (status i) (tags i) (commitSHA i) (buildServerURL i)
           (repositoryURL i) (mandatory i).

(** The part written for an entry of [fields] (line 110). *)
Definition field_part (kv : string * string) : Part := FieldPart kv.1 kv.2.

(** The part written for an entry of [files] (lines 117-127): the field
    name, the path as file name, and what the file delivers. *)
Definition file_part (w : World) (kv : string * string) : Part :=
  FilePart kv.1 kv.2
    match os_Open w kv.2 with inl f => f_data f | inr _ => "" end.

(** The file of an entry of [files] can be opened and read to its end. *)
Definition readable (w : World) (kv : string * string) : Prop :=
  ∃ f, os_Open w kv.2 = inl f ∧ f_readErr f = None.

(** The request [createRequest] returns when nothing fails. *)
Definition built_request (w : World) (url : string)
    (fields files : gmap string string) : Request :=
  let body :=
    mkWriter (multipart_boundary w)
             ((field_part <$> go_range w fields) ++ (file_part w <$> go_range w files))
             true in
  mkRequest "POST" url {[ "Content-Type" := [FormDataContentType body] ]} body.

(** The state in which [main] calls [createRequest]. *)
Definition before_createRequest (i : Inputs) : Proc :=
  mkProc ((EvStdout <$> config_lines i)
          ++ (EvStdout <$> info_lines "Performing request")) [].

(** The inputs are valid, the files can be read and the URL parses: all
    that lines 185-237 ask for. *)
Definition request_ready (w : World) : Prop :=
  let i := readInputs w in
  inputs_valid w i
  ∧ Forall (readable w) (go_range w (requestFiles (apkPath i) (mappingPath i)))
  ∧ url_Parse_err w (requestURL (appID i)) = None.

(** The request [main] hands to the client. *)
Definition request_sent (w : World) : Request :=
  let i := readInputs w in
  Header_Add (built_request w (requestURL (appID i)) (requestFields i)
                (requestFiles (apkPath i) (mappingPath i)))
             "X-HockeyAppToken" (apiToken i).

Definition is_BodyClose (e : event) : bool :=
  match e with EvBodyClose => true | _ => false end.

(** [response.Body.Close()] has been called. *)
Definition body_closed (tr : list event) : bool := existsb is_BodyClose tr.

(** What a sequence of exports on the success path (lines 299-313) comes
    to: the outcome and the [envman] invocations.  The first export that
    fails ends the sequence in [logFail]. *)
Fixpoint export_outcome (w : World) (kvs : list (string * string))
  : outcome unit * list (string * string) :=
  match kvs with
  | [] => (Returned tt, [])
  | kv :: rest =>
      match envman_Run w kv.1 kv.2 with
      | Some _ => (Exited 1, kv :: failed_export)
      | None => let '(o, l) := export_outcome w rest in (o, kv :: l)
      end
  end.

(** A list of events ends with the events [X], and before them the
    response body is not closed. *)
Inductive ends_with (X : list event) : list event → Prop :=
| ends_here : ends_with X X
| ends_cons e l : is_BodyClose e = false → ends_with X l → ends_with X (e :: l)
| ends_app ls l : ends_with X l → ends_with X ((EvStdout <$> ls) ++ l).

(** The answer of the client is a readable response with an accepted
    status whose body decodes into [v] without error. *)
Definition good_answer (w : World) (answer : option Response * option error)
    (v : ResponseModel) : Prop :=
  ∃ response j,
    answer = (Some response, None)
    ∧ statusCodeFailed (StatusCode response) = false
    ∧ (Body response).2 = None
    ∧ json_scan w (Body response).1 = inl j
    ∧ decode_value w j zeroResponseModel = (v, None).

(** Every export of a list succeeds. *)
Definition exports_succeed (w : World) (kvs : list (string * string)) : Prop :=
  ∀ kv, kv ∈ kvs → envman_Run w kv.1 kv.2 = None.

(** [range] yields the entries of a map, each once. *)
Definition range_faithful (w : World) : Prop :=
  ∀ m : gmap string string, go_range w m ≡ₚ map_to_list m.

(** The red line [logFail] prints for a message. *)
Definition red_line (errorMsg : string) : string :=
  ESC +:+ "[31;1m" +:+ errorMsg +:+ ESC +:+ "[0m" +:+ LF.

(** The yellow line [logWarn] prints for a message. *)
Definition yellow_line (errorMsg : string) : string :=
  ESC +:+ "[33;1m" +:+ errorMsg +:+ ESC +:+ "[0m" +:+ LF.

(** The events of [logFail], spelled out: the export of the failure
    status, a warning when that export fails, the error line. *)
Definition failure_tail (w : World) (errorMsg : string) : list event :=
  EvEnvman hockeyAppDeployStatusKey hockeyAppDeployStatusFailed
  :: match envman_Run w hockeyAppDeployStatusKey hockeyAppDeployStatusFailed with
     | Some e =>
         [EvStdout (yellow_line ("Failed to export " +:+ hockeyAppDeployStatusKey
                                 +:+ ", error: " +:+ err_Error e))]
     | None => []
     end
  ++ [EvStdout (red_line errorMsg)].

(** ** Concrete worlds

    A small world to run the step in: two files on disk, an [envman]
    that always works, a JSON scanner that knows a handful of bodies. *)

Definition quoted (s : string) : string := DQUOTE +:+ s +:+ DQUOTE.

Definition ENOENT (op pth : string) : error :=
  mkError (op +:+ " " +:+ pth +:+ ": no such file or directory")
          ("&fs.PathError{Op:" +:+ quoted op +:+ ", Path:" +:+ quoted pth
           +:+ ", Err:0x2}")
          true.

Definition body_three_urls : string :=
  "{" +:+ quoted "public_url" +:+ ":" +:+ quoted "https://a" +:+ ","
      +:+ quoted "build_url" +:+ ":" +:+ quoted "https://b" +:+ ","
      +:+ quoted "config_url" +:+ ":" +:+ quoted "https://c" +:+ "}".

Definition body_public_only : string :=
  "{" +:+ quoted "public_url" +:+ ":" +:+ quoted "https://a" +:+ "}".

Definition demo_scan (data : string) : json + error :=
  if bool_decide (data = body_three_urls) then
    inl (JObject [("public_url", JString "https://a");
                  ("build_url", JString "https://b");
                  ("config_url", JString "https://c")])
  else if bool_decide (data = body_public_only) then
    inl (JObject [("public_url", JString "https://a")])
  else if bool_decide (data = "{}") then inl (JObject [])
  else inr (mkError "invalid character" "&json.SyntaxError{}" false).

Definition demo_on_disk (pth : string) : bool :=
  bool_decide (pth = "app.apk") || bool_decide (pth = "mapping.txt").

Definition demoWorld (env : list (string * string))
    (answer : option Response * option error) : World :=
  {| environ := list_to_map env;
     os_Stat := λ pth, if demo_on_disk pth then inl (mkFileInfo pth false)
                       else inr (ENOENT "stat" pth);
     os_Open := λ pth, if demo_on_disk pth
                       then inl (mkFile pth ("contents of " +:+ pth) None)
                       else inr (ENOENT "open" pth);
     go_range := map_to_list;
     multipart_boundary := "boundary";
     url_Parse_err := λ _, None;
     http_Do := λ _, answer;
     envman_Run := λ _ _, None;
     json_scan := demo_scan;
     json_UnmarshalTypeError := λ kind fld,
       mkError ("json: cannot unmarshal " +:+ kind +:+ " into " +:+ fld)
               "&json.UnmarshalTypeError{}" false |}.

Definition demoEnv : list (string * string) :=
  [("apk_path", "app.apk"); ("api_token", "secret"); ("app_id", "abc123");
   ("mandatory", "true"); ("notes", "hello")].

Definition answer200 : option Response * option error :=
  (Some (mkResponse 200 (body_three_urls, None)), None).

Definition answer404 : option Response * option error :=
  (Some (mkResponse 404 ("not found", None)), None).

Definition answer300 : option Response * option error :=
  (Some (mkResponse 300 ("{}", None)), None).

Definition connection_refused : error :=
  mkError "Post https://rink.hockeyapp.net/api/2/apps/abc123/app_versions/upload: dial tcp: connection refused"
          "&url.Error{Op:Post, Err:(*net.OpError)}" false.

(** A world whose [envman] fails for one key. *)
Definition envman_failing (key : string) (w : World) : World :=
  mkWorld (environ w) (os_Stat w) (os_Open w) (go_range w) (multipart_boundary w)
          (url_Parse_err w) (http_Do w)
          (λ k v, if bool_decide (k = key)
                  then Some (mkError "exit status 1" "&exec.ExitError{}" false)
                  else envman_Run w k v)
          (json_scan w) (json_UnmarshalTypeError w).

Definition unexpected_EOF : error :=
  mkError "unexpected EOF" "&errors.errorString{s:unexpected EOF}" false.

(** A response whose body breaks off while it is read. *)
Definition answer_truncated : option Response * option error :=
  (Some (mkResponse 200 ("{", Some unexpected_EOF)), None).

(** A response whose body is not JSON. *)
Definition answer_html : option Response * option error :=
  (Some (mkResponse 200 ("<html>", None)), None).

(** [json.Unmarshal] reports an error for the data. *)
Definition unmarshal_fails (w : World) (data : string) : Prop :=
  match json_scan w data with
  | inr _ => True
  | inl j => (decode_value w j zeroResponseModel).2 ≠ None
  end.

(** A world in which no file can be opened. *)
Definition files_locked (w : World) : World :=
  mkWorld (environ w) (os_Stat w)
          (λ pth, inr (mkError ("open " +:+ pth +:+ ": permission denied")
                               "&fs.PathError{Op:open, Err:0xd}" false))
          (go_range w) (multipart_boundary w) (url_Parse_err w) (http_Do w)
          (envman_Run w) (json_scan w) (json_UnmarshalTypeError w).

(** The run is the configuration log followed by [logFail] with the
    message. *)
Definition fails_validation_with (w : World) (errorMsg : string) : Prop :=
  run w = (Exited 1,
           mkProc ((EvStdout <$> config_lines (readInputs w))
                   ++ failure_tail w errorMsg) []).

(** The scalar parts of the body, in the order of the map literal of
    lines 215-225. *)
Definition scalar_parts (i : Inputs) : list Part :=
  [FieldPart "notes" (notes i);
   FieldPart "notes_type" (notesType i);
   FieldPart "notify" (notify i);
   FieldPart "status" (status i);
   FieldPart "mandatory" (mandatory i);
   FieldPart "tags" (tags i);
   FieldPart "commit_sha" (commitSHA i);
   FieldPart "build_server_url" (buildServerURL i);
   FieldPart "repository_url" (repositoryURL i)].

(** The file parts of the body: the binary, and the mapping file when a
    mapping path is given. *)
Definition binary_parts (w : World) (i : Inputs) : list Part :=
  file_part w ("ipa", apkPath i)
  :: if decide (mappingPath i ≠ "") then [file_part w ("dsym", mappingPath i)] else [].

(** A response that arrives together with an error of the client, as
    when a redirect is refused. *)
Definition answer_redirect_refused : option Response * option error :=
  (Some (mkResponse 200 (body_three_urls, None)),
   Some (mkError "Post: stopped after 10 redirects" "&url.Error{Op:Post}" false)).

(** The paths of the files the request is built from. *)
Definition upload_paths (i : Inputs) : list string :=
  apkPath i :: if decide (mappingPath i ≠ "") then [mappingPath i] else [].

(** * Properties *)

(** ** Traces *)

Section TraceLemmas.

Variables l1 l2 : list event.

Lemma exported_app : exported (l1 ++ l2) = exported l1 ++ exported l2.
Proof. apply omap_app. Qed.

Lemma printed_app : printed (l1 ++ l2) = printed l1 ++ printed l2.
Proof. apply omap_app. Qed.

Lemma network_calls_app :
  network_calls (l1 ++ l2) = network_calls l1 ++ network_calls l2.
Proof. apply omap_app. Qed.

Lemma createRequest_calls_app :
  createRequest_calls (l1 ++ l2) = createRequest_calls l1 ++ createRequest_calls l2.
Proof. apply omap_app. Qed.

Lemma unmarshal_calls_app :
  unmarshal_calls (l1 ++ l2) = unmarshal_calls l1 ++ unmarshal_calls l2.
Proof. apply omap_app. Qed.

End TraceLemmas.

Lemma exported_cons (e : event) (l : list event) :
  exported (e :: l)
  = match e with EvEnvman k v => [(k, v)] | _ => [] end ++ exported l.
Proof. by destruct e. Qed.

Lemma printed_cons (e : event) (l : list event) :
  printed (e :: l) = match e with EvStdout s => [s] | _ => [] end ++ printed l.
Proof. by destruct e. Qed.

Lemma network_calls_cons (e : event) (l : list event) :
  network_calls (e :: l)
  = match e with EvHTTPDo req => [req] | _ => [] end ++ network_calls l.
Proof. by destruct e. Qed.

Lemma createRequest_calls_cons (e : event) (l : list event) :
  createRequest_calls (e :: l)
  = match e with EvCreateRequest url => [url] | _ => [] end
    ++ createRequest_calls l.
Proof. by destruct e. Qed.

Lemma unmarshal_calls_cons (e : event) (l : list event) :
  unmarshal_calls (e :: l)
  = match e with EvUnmarshal data => [data] | _ => [] end ++ unmarshal_calls l.
Proof. by destruct e. Qed.

Lemma exported_nil : exported [] = [].
Proof. reflexivity. Qed.

Lemma printed_nil : printed [] = [].
Proof. reflexivity. Qed.

Lemma network_calls_nil : network_calls [] = [].
Proof. reflexivity. Qed.

Lemma createRequest_calls_nil : createRequest_calls [] = [].
Proof. reflexivity. Qed.

Lemma unmarshal_calls_nil : unmarshal_calls [] = [].
Proof. reflexivity. Qed.

Lemma exported_opens (ps : list string) : exported (EvOpen <$> ps) = [].
Proof. induction ps; auto. Qed.

Lemma printed_opens (ps : list string) : printed (EvOpen <$> ps) = [].
Proof. induction ps; auto. Qed.

Lemma network_calls_opens (ps : list string) : network_calls (EvOpen <$> ps) = [].
Proof. induction ps; auto. Qed.

Lemma unmarshal_calls_opens (ps : list string) : unmarshal_calls (EvOpen <$> ps) = [].
Proof. induction ps; auto. Qed.

Lemma exported_stdout (ls : list string) : exported (EvStdout <$> ls) = [].
Proof. induction ls; auto. Qed.

Lemma printed_stdout (ls : list string) : printed (EvStdout <$> ls) = ls.
Proof. induction ls; simpl; f_equal; auto. Qed.

Lemma network_calls_stdout (ls : list string) : network_calls (EvStdout <$> ls) = [].
Proof. induction ls; auto. Qed.

Lemma createRequest_calls_stdout (ls : list string) :
  createRequest_calls (EvStdout <$> ls) = [].
Proof. induction ls; auto. Qed.

Lemma createRequest_calls_opens (ps : list string) :
  createRequest_calls (EvOpen <$> ps) = [].
Proof. induction ps; auto. Qed.

Lemma unmarshal_calls_stdout (ls : list string) :
  unmarshal_calls (EvStdout <$> ls) = [].
Proof. induction ls; auto. Qed.

Lemma before_network_app (l l' : list event) :
  network_calls l = [] →
  before_network (l ++ l') = l ++ before_network l'.
Proof.
  induction l as [|e l IH]; simpl; [done|].
  destruct e; simpl; intros H; try discriminate; f_equal; auto.
Qed.

Lemma before_network_none (l : list event) :
  network_calls l = [] → before_network l = l.
Proof.
  intros H. rewrite <- (app_nil_r l) at 1.
  rewrite before_network_app by done. simpl. apply app_nil_r.
Qed.

Create Rewrite HintDb trace.
#[local] Hint Rewrite exported_cons printed_cons network_calls_cons
  createRequest_calls_cons unmarshal_calls_cons exported_nil printed_nil
  network_calls_nil createRequest_calls_nil unmarshal_calls_nil : trace.
#[local] Hint Rewrite exported_app printed_app network_calls_app
  createRequest_calls_app unmarshal_calls_app exported_opens printed_opens
  network_calls_opens unmarshal_calls_opens createRequest_calls_opens
  exported_stdout printed_stdout network_calls_stdout createRequest_calls_stdout
  unmarshal_calls_stdout : trace.

(** ** [createRequest] *)

Lemma addFields_ok (entries : list (string * string)) (mw : Writer) :
  ∃ mw', addFields entries mw = inl mw'
         ∧ ∀ key value, (key, value) ∈ entries ∨ FieldPart key value ∈ mw_parts mw →
                        FieldPart key value ∈ mw_parts mw'.
Proof.
  revert mw. induction entries as [|[k v] rest IH]; intros mw; simpl.
  - exists mw. split; [done|]. by intros key value [?%elem_of_nil|?].
  - destruct (IH (mkWriter (mw_boundary mw) (mw_parts mw ++ [FieldPart k v])
                    (mw_closed mw))) as (mw' & -> & Hparts).
    exists mw'. split; [done|]. intros key value Hin. apply Hparts. simpl.
    rewrite elem_of_app, list_elem_of_singleton.
    destruct Hin as [[[= -> ->]|Hin]%elem_of_cons|Hin]; auto.
Qed.

Lemma last_part_write_snoc (data : string) (ps : list Part) (p : Part) :
  last_part_write data (ps ++ [p]) = ps ++ [part_write data p].
Proof.
  induction ps as [|q ps IH]; [done|]. simpl. rewrite IH.
  by destruct (ps ++ [p]) eqn:E; [destruct ps; discriminate E|].
Qed.

Lemma addFiles_run (w : World) (entries : list (string * string)) (mw : Writer) (σ : Proc) :
  ∃ r, addFiles w entries mw σ =
       (Returned r,
        mkProc (trace σ ++ (EvOpen <$> files_attempted w entries))
               (unclosed_files σ ++ files_opened w entries))
       ∧ match r with
         | inl mw' => ∀ p, p ∈ mw_parts mw → p ∈ mw_parts mw'
         | inr _ => True
         end.
Proof.
  revert mw σ. induction entries as [|[key file] rest IH]; intros mw σ.
  - exists (inl mw). destruct σ. simpl. by rewrite !app_nil_r.
  - simpl. unfold mbind, Run_bind, open, mret, Run_ret.
    destruct (os_Open w file) as [f|err]; simpl.
    + destruct (f_readErr f) as [err|]; simpl.
      * by exists (inr err).
      * destruct (IH (mkWriter (mw_boundary mw)
                        (last_part_write (f_data f) (mw_parts mw ++ [FilePart key file ""]))
                        (mw_closed mw))
                     (mkProc (trace σ ++ [EvOpen file]) (unclosed_files σ ++ [file])))
          as (r & -> & Hparts).
        exists r. simpl. rewrite <- !app_assoc. split; [done|].
        destruct r as [mw'|]; [|done]. intros p Hp. apply Hparts. simpl.
        rewrite last_part_write_snoc, elem_of_app. by left.
    + exists (inr err). by rewrite app_nil_r.
Qed.

Lemma createRequest_run (w : World) (url : string) (fields files : gmap string string)
    (σ : Proc) :
  ∃ r, createRequest w url fields files σ =
       (Returned r,
        mkProc (trace σ ++ EvCreateRequest url
                  :: (EvOpen <$> files_attempted w (go_range w files)))
               (unclosed_files σ ++ files_opened w (go_range w files)))
       ∧ match r with
         | inl req =>
             Method req = "POST" ∧ URL req = url
             ∧ ∀ key value, (key, value) ∈ go_range w fields →
                            FieldPart key value ∈ mw_parts (ReqBody req)
         | inr _ => True
         end.
Proof.
  unfold createRequest, mbind, Run_bind, emit, mret, Run_ret.
  destruct (addFields_ok (go_range w fields) (multipart_NewWriter w))
    as (mw & -> & Hfields).
  match goal with
  | |- context [addFiles w ?es ?m ?s] =>
      destruct (addFiles_run w es m s) as (r & -> & Hfiles)
  end.
  simpl. rewrite <- !app_assoc. simpl.
  destruct r as [mw'|err]; [|by exists (inr err)].
  unfold http_NewRequest.
  destruct (url_Parse_err w url) as [err|]; [by exists (inr err)|].
  eexists (inl _). split; [reflexivity|]. simpl. split; [done|]. split; [done|].
  intros key value Hin. apply Hfiles, Hfields. by left.
Qed.

(** ** Running the stages of [main] *)

(** Unfolds the monad and the logging helpers, leaving the calls into the
    outside world in place. *)
Ltac run_unfold :=
  cbv beta iota zeta delta
    [logInfo logDetails logDone logWarn exportEnvironmentWithEnvman
     exportOrFail logFailedResponse json_Unmarshal client_Do ioutil_ReadAll
     fmt_Printf fmt_Println emit os_Exit panic mbind Run_bind mret Run_ret
     startProc];
  cbn [trace unclosed_files fst snd].

(** Case analysis on a scrutinee that is itself free of case analyses. *)
Ltac run_case :=
  match goal with
  | |- context [match ?x with _ => _ end] =>
      lazymatch x with
      | context [match _ with _ => _ end] => fail
      | _ => destruct x eqn:?
      end
  end.

Ltac run_exec := run_unfold; repeat (run_case; run_unfold).

Lemma bind_run {A B} (m : Run A) (k : A → Run B) (σ : Proc) :
  (m ≫= k) σ = match m σ with
               | (Returned a, σ') => k a σ'
               | (Exited c, σ') => (Exited c, σ')
               | (Panicked msg, σ') => (Panicked msg, σ')
               end.
Proof. reflexivity. Qed.

Lemma logInfo_run (errorMsg : string) (σ : Proc) :
  logInfo errorMsg σ
  = (Returned tt,
     mkProc (trace σ ++ (EvStdout <$> info_lines errorMsg)) (unclosed_files σ)).
Proof. unfold info_lines. run_exec. simpl. by rewrite <- !app_assoc. Qed.

Lemma logFail_run {A} (w : World) (errorMsg : string) (σ : Proc) :
  logFail (A:=A) w errorMsg σ
  = (Exited 1, mkProc (trace σ ++ logFail_events w errorMsg) (unclosed_files σ)).
Proof.
  unfold logFail_events, logFail. run_exec; by rewrite <- ?app_assoc.
Qed.

Lemma logFail_events_exported (w : World) (errorMsg : string) :
  exported (logFail_events w errorMsg)
  = [(hockeyAppDeployStatusKey, hockeyAppDeployStatusFailed)].
Proof. unfold logFail_events, logFail. run_exec; reflexivity. Qed.

Lemma logFail_events_quiet (w : World) (errorMsg : string) :
  network_calls (logFail_events w errorMsg) = []
  ∧ createRequest_calls (logFail_events w errorMsg) = []
  ∧ unmarshal_calls (logFail_events w errorMsg) = [].
Proof. unfold logFail_events, logFail. run_exec; done. Qed.

Lemma logConfigs_run (i : Inputs) (σ : Proc) :
  logConfigs i σ
  = (Returned tt, mkProc (trace σ ++ (EvStdout <$> config_lines i)) (unclosed_files σ)).
Proof.
  unfold config_lines, logConfigs. run_exec. simpl. by rewrite <- !app_assoc.
Qed.

(** Closes a branch of the validation that ends in [logFail]. *)
Ltac ends_in_logFail :=
  eexists; unfold mbind, Run_bind, mret, Run_ret; by rewrite !logFail_run.

(** Lines 185-204 either pass in silence or end in [logFail]. *)
Lemma validation_cases (w : World) (i : Inputs) (σ : Proc) :
  (inputs_valid w i ∧ validateInputs w i σ = (Returned tt, σ))
  ∨ (¬ inputs_valid w i ∧ ∃ errorMsg, validateInputs w i σ = logFail w errorMsg σ).
Proof.
  unfold inputs_valid, validateInputs, checkPaths, checkToken.
  destruct (decide (apkPath i = "")) as [Hapk|Hapk].
  { right. split; [tauto|ends_in_logFail]. }
  destruct (IsPathExists w (apkPath i)) as [ex1 [e1|]] eqn:H1.
  { right. split; [intros (_ & [=] & _)|ends_in_logFail]. }
  destruct ex1; simpl.
  2:{ right. split; [intros (_ & [=] & _)|ends_in_logFail]. }
  destruct (decide (mappingPath i ≠ "")) as [Hmap|Hmap].
  - destruct (IsPathExists w (mappingPath i)) as [ex2 [e2|]] eqn:H2.
    { right. split; [intros (_ & _ & Hm & _); by specialize (Hm Hmap)|].
      ends_in_logFail. }
    destruct ex2; simpl.
    2:{ right. split; [intros (_ & _ & Hm & _); by specialize (Hm Hmap)|].
        ends_in_logFail. }
    destruct (decide (apiToken i = "")) as [Htok|Htok].
    + right. split; [tauto|ends_in_logFail].
    + left. split; [done|reflexivity].
  - destruct (decide (apiToken i = "")) as [Htok|Htok].
    + right. split; [tauto|ends_in_logFail].
    + left. split; [|reflexivity]. repeat split; done.
Qed.

Lemma run_split (w : World) :
  run w = match preNetwork w with
          | (Returned request, σ) => sendRequest w (readInputs w) request σ
          | (Exited c, σ) => (Exited c, σ)
          | (Panicked msg, σ) => (Panicked msg, σ)
          end.
Proof.
  unfold run, main, preNetwork. rewrite !bind_run.
  destruct (logConfigs (readInputs w) startProc) as [[[]| |] σ]; [|done..].
  rewrite !bind_run.
  by destruct (prepareRequest w (readInputs w) σ) as [[| |] ?].
Qed.

(** Before the network is touched a run takes one of three courses:
    validation fails, request construction fails, or the request is
    ready to be sent. *)
Lemma preNetwork_cases (w : World) :
  let i := readInputs w in
  (¬ inputs_valid w i
   ∧ ∃ errorMsg,
       preNetwork w
       = (Exited 1,
          mkProc ((EvStdout <$> config_lines i) ++ logFail_events w errorMsg) []))
  ∨ (inputs_valid w i
     ∧ ∃ errorMsg,
         preNetwork w
         = (Exited 1,
            mkProc (request_events w i ++ logFail_events w errorMsg)
                   (request_files w i)))
  ∨ (inputs_valid w i
     ∧ ∃ request,
         request_built w i request
         ∧ preNetwork w
           = (Returned request, mkProc (request_events w i) (request_files w i))).
Proof.
  intros i. unfold preNetwork. fold i.
  rewrite !bind_run, !logConfigs_run. unfold prepareRequest.
  rewrite !bind_run.
  destruct (validation_cases w i
              (mkProc (trace startProc ++ (EvStdout <$> config_lines i))
                      (unclosed_files startProc))) as [[Hv ->]|[Hv [msg ->]]].
  2:{ left. split; [done|]. exists msg. by rewrite logFail_run. }
  right. rewrite !bind_run, !logInfo_run, !bind_run.
  match goal with
  | |- context [createRequest ?w ?u ?f ?fl ?s] =>
      destruct (createRequest_run w u f fl s) as (r & -> & Hreq)
  end.
  cbn [trace unclosed_files startProc app].
  replace (((EvStdout <$> config_lines i)
            ++ (EvStdout <$> info_lines "Performing request"))
           ++ EvCreateRequest (requestURL (appID i))
              :: (EvOpen <$> files_attempted w
                    (go_range w (requestFiles (apkPath i) (mappingPath i)))))
    with (request_events w i) by (unfold request_events; by rewrite <- app_assoc).
  fold (request_files w i).
  destruct r as [request|err].
  - right. split; [done|]. exists request. done.
  - left. split; [done|]. eexists. by rewrite logFail_run.
Qed.

#[local] Hint Rewrite logFail_events_exported : trace.

Lemma logFail_events_network (w : World) (errorMsg : string) :
  network_calls (logFail_events w errorMsg) = [].
Proof. apply logFail_events_quiet. Qed.

Lemma logFail_events_createRequest (w : World) (errorMsg : string) :
  createRequest_calls (logFail_events w errorMsg) = [].
Proof. apply logFail_events_quiet. Qed.

Lemma logFail_events_unmarshal (w : World) (errorMsg : string) :
  unmarshal_calls (logFail_events w errorMsg) = [].
Proof. apply logFail_events_quiet. Qed.

#[local] Hint Rewrite logFail_events_network logFail_events_createRequest
  logFail_events_unmarshal : trace.

Lemma request_events_quiet (w : World) (i : Inputs) :
  network_calls (request_events w i) = []
  ∧ unmarshal_calls (request_events w i) = []
  ∧ exported (request_events w i) = []
  ∧ createRequest_calls (request_events w i) = [requestURL (appID i)].
Proof.
  unfold request_events. autorewrite with trace. simpl.
  by autorewrite with trace.
Qed.

Lemma request_events_network (w : World) (i : Inputs) :
  network_calls (request_events w i) = [].
Proof. apply request_events_quiet. Qed.

Lemma request_events_unmarshal (w : World) (i : Inputs) :
  unmarshal_calls (request_events w i) = [].
Proof. apply request_events_quiet. Qed.

Lemma request_events_exported (w : World) (i : Inputs) :
  exported (request_events w i) = [].
Proof. apply request_events_quiet. Qed.

Lemma request_events_createRequest (w : World) (i : Inputs) :
  createRequest_calls (request_events w i) = [requestURL (appID i)].
Proof. apply request_events_quiet. Qed.

#[local] Hint Rewrite request_events_network request_events_unmarshal
  request_events_exported request_events_createRequest : trace.

Lemma preNetwork_no_network (w : World) :
  network_calls (trace (preNetwork w).2) = [].
Proof.
  destruct (preNetwork_cases w) as [(_ & msg & ->)|[(_ & msg & ->)|(_ & r & _ & ->)]];
    cbn [snd trace]; by autorewrite with trace.
Qed.

(** A run whose inputs fail validation is the configuration log followed
    by one [logFail]. *)
Lemma run_invalid (w : World) :
  ¬ inputs_valid w (readInputs w) →
  ∃ errorMsg,
    run w = (Exited 1,
             mkProc ((EvStdout <$> config_lines (readInputs w))
                     ++ logFail_events w errorMsg) []).
Proof.
  intros Hinv. rewrite run_split.
  destruct (preNetwork_cases w) as [(_ & msg & ->)|[(Hv & _)|(Hv & _)]];
    [eauto|done..].
Qed.

(** ** Validation (claims C4 and C5) *)

Lemma missing_or_empty_Getenv (w : World) (key : string) :
  missing_or_empty w key ↔ os_Getenv w key = "".
Proof.
  unfold missing_or_empty, os_Getenv.
  destruct (environ w !! key) as [v|]; simpl.
  - split; [intros [[=]|[=]]; done|intros ->; by right].
  - split; [done|by left].
Qed.

(** C4. Whenever a required input (the binary path [apk_path] or the
    token [api_token]) is missing or empty, the process exits with
    status 1, hence non-zero, and the run contains no network call. *)
Theorem missing_required_input_exits_before_network (w : World) :
  missing_or_empty w "apk_path" ∨ missing_or_empty w "api_token" →
  (run w).1 = Exited 1
  ∧ exit_status (run w).1 ≠ 0%Z
  ∧ network_calls (trace (run w).2) = [].
Proof.
  intros Hm.
  assert (Hinv : ¬ inputs_valid w (readInputs w)).
  { intros (Hapk & _ & _ & Htok).
    destruct Hm as [Hm|Hm]; apply missing_or_empty_Getenv in Hm; auto. }
  destruct (run_invalid w Hinv) as [msg ->]. simpl.
  autorewrite with trace. done.
Qed.

(** In the demo world with no [api_token] set, the step stops before the
    network. *)
Lemma missing_required_input_witness :
  let w := demoWorld [("apk_path", "app.apk")] answer200 in
  (run w).1 = Exited 1
  ∧ exit_status (run w).1 ≠ 0%Z
  ∧ network_calls (trace (run w).2) = [].
Proof.
  apply (missing_required_input_exits_before_network
           (demoWorld [("apk_path", "app.apk")] answer200)).
  right. left. vm_compute. reflexivity.
Defined.

(** C5. Whenever the existence check of the binary path fails, or the
    mapping path is non-empty and its existence check fails, the process
    exits with status 1 and [createRequest] is never called: no file is
    opened and no network call is made. *)
Theorem missing_path_exits_before_request (w : World) :
  path_check_fails w (os_Getenv w "apk_path")
  ∨ (os_Getenv w "mapping_path" ≠ ""
     ∧ path_check_fails w (os_Getenv w "mapping_path")) →
  (run w).1 = Exited 1
  ∧ exit_status (run w).1 ≠ 0%Z
  ∧ createRequest_calls (trace (run w).2) = []
  ∧ network_calls (trace (run w).2) = []
  ∧ unclosed_files (run w).2 = [].
Proof.
  intros Hp.
  assert (Hinv : ¬ inputs_valid w (readInputs w)).
  { intros (_ & Hapk & Hmap & _). simpl in Hapk, Hmap.
    destruct Hp as [Hp|[Hne Hp]].
    - unfold path_check_fails in Hp. rewrite Hapk in Hp.
      by destruct Hp as [Hp|Hp].
    - unfold path_check_fails in Hp. rewrite (Hmap Hne) in Hp.
      by destruct Hp as [Hp|Hp]. }
  destruct (run_invalid w Hinv) as [msg ->]. simpl.
  autorewrite with trace. done.
Qed.

Lemma missing_path_witness :
  let w := demoWorld [("apk_path", "gone.apk"); ("api_token", "secret")] answer200 in
  (run w).1 = Exited 1
  ∧ exit_status (run w).1 ≠ 0%Z
  ∧ createRequest_calls (trace (run w).2) = []
  ∧ network_calls (trace (run w).2) = []
  ∧ unclosed_files (run w).2 = [].
Proof.
  apply (missing_path_exits_before_request
           (demoWorld [("apk_path", "gone.apk"); ("api_token", "secret")] answer200)).
  left. right. vm_compute. reflexivity.
Defined.

(** ** Sending the request and reading the answer *)

Lemma logURLs_run (v : ResponseModel) (σ : Proc) :
  ∃ lines,
    logURLs v σ = (Returned tt, mkProc (trace σ ++ (EvStdout <$> lines)) (unclosed_files σ)).
Proof.
  unfold logURLs. run_exec.
  all: rewrite <- ?app_assoc; simpl.
  all: match goal with
       | |- ∃ _, (_, mkProc (_ ++ ?l) _) = _ =>
           exists (printed l); reflexivity
       end.
Qed.

(** Symbolic execution of the response handling: [logFail] and [logURLs]
    are replaced by their effect, everything else is run. *)
Ltac send_step :=
  match goal with
  | |- context [logFail ?w ?msg ?s] => rewrite (logFail_run w msg s)
  | |- context [logURLs ?v ?s] =>
      let lines := fresh "lines" in
      destruct (logURLs_run v s) as [lines ->]
  | _ => run_case
  end.

Ltac send_exec := run_unfold; repeat (send_step; run_unfold).

(** Normalises the projections of a trace built from explicit events,
    appends and the events of the stages. *)
Ltac trace_norm :=
  repeat (progress (autorewrite with trace; cbn [app]));
  rewrite ?app_nil_r.

Ltac trace_norm_in H :=
  repeat (progress (autorewrite with trace in H; cbn [app] in H));
  rewrite ?app_nil_r in H.

Ltac answered_premise :=
  simpl; trace_norm;
  try match goal with H : json_scan _ _ = _ |- _ => rewrite H end;
  first [eassumption | reflexivity | split; reflexivity].

(** Picks the course of [answered] that fits the branch at hand. *)
Ltac answered_case :=
  first
    [ apply NilResponse
    | solve [eapply TransportFailure; answered_premise]
    | solve [eapply HTTPFailure; answered_premise]
    | solve [eapply BodyReadFailure; answered_premise]
    | solve [eapply ParseFailure; answered_premise]
    | solve [eapply Success; answered_premise]
    | solve [eapply (ExportFailure _ _ _ _ 0); answered_premise]
    | solve [eapply (ExportFailure _ _ _ _ 1); answered_premise]
    | solve [eapply (ExportFailure _ _ _ _ 2); answered_premise]
    | solve [eapply (ExportFailure _ _ _ _ 3); answered_premise] ].

Lemma sendRequest_run (w : World) (i : Inputs) (request : Request) (σ : Proc) :
  let sent := Header_Add request "X-HockeyAppToken" (apiToken i) in
  ∃ o evs,
    sendRequest w i request σ
    = (o, mkProc (trace σ ++ EvHTTPDo sent :: evs) (unclosed_files σ))
    ∧ network_calls evs = []
    ∧ createRequest_calls evs = []
    ∧ answered w (http_Do w sent).1 (http_Do w sent).2 o evs.
Proof.
  intros sent. unfold sendRequest, processResponse. fold sent.
  send_exec.
  all: rewrite <- ?app_assoc; simpl.
  all: do 2 eexists; split; [reflexivity|].
  all: trace_norm.
  all: split; [reflexivity|split; [reflexivity|]].
  all: repeat match goal with r : Response |- _ => destruct r end.
  all: simpl in *; simplify_eq.
  all: answered_case.
Qed.

(** The three courses of a whole run. *)
Lemma run_cases (w : World) :
  let i := readInputs w in
  (¬ inputs_valid w i
   ∧ ∃ errorMsg,
       run w = (Exited 1,
                mkProc ((EvStdout <$> config_lines i) ++ logFail_events w errorMsg) []))
  ∨ (inputs_valid w i
     ∧ ∃ errorMsg,
         run w = (Exited 1,
                  mkProc (request_events w i ++ logFail_events w errorMsg)
                         (request_files w i)))
  ∨ (inputs_valid w i
     ∧ ∃ request o evs,
         let sent := Header_Add request "X-HockeyAppToken" (apiToken i) in
         request_built w i request
         ∧ run w = (o, mkProc (request_events w i ++ EvHTTPDo sent :: evs)
                              (request_files w i))
         ∧ network_calls evs = []
         ∧ createRequest_calls evs = []
         ∧ answered w (http_Do w sent).1 (http_Do w sent).2 o evs).
Proof.
  intros i. subst i. rewrite run_split.
  pose proof (preNetwork_cases w) as Hpre. cbv zeta in Hpre.
  destruct Hpre
    as [(Hv & msg & ->)|[(Hv & msg & ->)|(Hv & request & Hb & ->)]];
    [left; eauto|right; left; eauto|right; right].
  split; [done|].
  pose proof (sendRequest_run w (readInputs w) request
                (mkProc (request_events w (readInputs w))
                        (request_files w (readInputs w)))) as Hsent.
  cbv zeta in Hsent. destruct Hsent as (o & evs & -> & Hn & Hc & Ha).
  exists request, o, evs. done.
Qed.

(** ** The response (claims C6 and C9) *)

(** C6. When the answer to the POST is a response with status 404,
    whatever its body and whatever else the client reports, the process
    exits with status 1, [json.Unmarshal] is never called, and the only
    key handed to [envman] is the deploy-status key, with the value
    "failed". *)
Theorem status_404_fails_without_parsing
    (w : World) (response : Response) (requestErr : option error) :
  (∀ request, http_Do w request = (Some response, requestErr)) →
  StatusCode response = 404%Z →
  (run w).1 = Exited 1
  ∧ exit_status (run w).1 ≠ 0%Z
  ∧ unmarshal_calls (trace (run w).2) = []
  ∧ exported (trace (run w).2) = [(hockeyAppDeployStatusKey, "failed")].
Proof.
  intros Hdo H404.
  destruct (run_cases w)
    as [(_ & msg & ->)|[(_ & msg & ->)|(_ & request & o & evs & Hrun)]].
  - cbn [fst snd trace exit_status]. by trace_norm.
  - cbn [fst snd trace exit_status]. by trace_norm.
  - destruct Hrun as (_ & -> & _ & _ & Ha). rewrite Hdo in Ha.
    cbn [fst snd trace exit_status] in *. trace_norm.
    inversion Ha; subst; try done.
    all: match goal with
         | H : statusCodeFailed (StatusCode _) = false |- _ =>
             rewrite H404 in H; discriminate H
         end.
Qed.

Lemma status_404_witness :
  let w := demoWorld demoEnv answer404 in
  (run w).1 = Exited 1
  ∧ exit_status (run w).1 ≠ 0%Z
  ∧ unmarshal_calls (trace (run w).2) = []
  ∧ exported (trace (run w).2) = [(hockeyAppDeployStatusKey, "failed")].
Proof.
  apply (status_404_fails_without_parsing (demoWorld demoEnv answer404)
           (mkResponse 404 ("not found", None)) None).
  - intros request. reflexivity.
  - reflexivity.
Defined.

(** ** The request (claims C7 and C8) *)

(** C7. The URL of the request is the generic upload endpoint when
    [app_id] is empty and the per-app endpoint, with [app_id] put in
    unchanged, when it is not; this is the URL [createRequest] is called
    with and the URL of the request given to the HTTP client. *)
Theorem request_url_matches_template (w : World) :
  let appID := os_Getenv w "app_id" in
  (appID = "" → requestURL appID = "https://rink.hockeyapp.net/api/2/apps/upload")
  ∧ (appID ≠ "" →
     requestURL appID
     = "https://rink.hockeyapp.net/api/2/apps/" +:+ appID +:+ "/app_versions/upload")
  ∧ (∀ url, url ∈ createRequest_calls (trace (run w).2) → url = requestURL appID)
  ∧ (∀ request, request ∈ network_calls (trace (run w).2) →
       Method request = "POST" ∧ URL request = requestURL appID).
Proof.
  intros appID. split; [|split; [|split]].
  - intros ->. reflexivity.
  - intros Hne. unfold requestURL. by rewrite decide_True.
  - intros url.
    destruct (run_cases w)
      as [(_ & msg & ->)|[(_ & msg & ->)|(_ & request & o & evs & Hrun)]].
    + cbn [snd trace]. trace_norm. by intros ?%elem_of_nil.
    + cbn [snd trace]. trace_norm. by intros ->%list_elem_of_singleton.
    + destruct Hrun as (_ & -> & _ & Hc & _).
      cbn [snd trace]. trace_norm. rewrite Hc.
      by intros ->%list_elem_of_singleton.
  - intros req.
    destruct (run_cases w)
      as [(_ & msg & ->)|[(_ & msg & ->)|(_ & request & o & evs & Hrun)]].
    + cbn [snd trace]. trace_norm. by intros ?%elem_of_nil.
    + cbn [snd trace]. trace_norm. by intros ?%elem_of_nil.
    + destruct Hrun as ((Hm & Hu & _) & -> & Hn & _ & _).
      cbn [snd trace]. trace_norm. rewrite Hn.
      intros ->%list_elem_of_singleton. done.
Qed.

Lemma demoWorld_range_visits_all (env : list (string * string))
    (answer : option Response * option error) :
  range_visits_all (demoWorld env answer).
Proof. intros m key value Hm. simpl. by apply elem_of_map_to_list. Qed.

(** C8. The [mandatory] field of the request is "1" exactly when the
    [mandatory] input is "1" or "true", and "0" for every other value,
    among them the empty string, "TRUE", "True" and "yes".  It is the
    value under "mandatory" in the [fields] map and, as [range] visits
    every entry, the value of the "mandatory" part of the body sent. *)
Theorem mandatory_is_normalized (w : World) :
  let input := os_Getenv w "mandatory" in
  requestFields (readInputs w) !! "mandatory" = Some (mandatoryFlag input)
  ∧ (range_visits_all w →
     ∀ request, request ∈ network_calls (trace (run w).2) →
                FieldPart "mandatory" (mandatoryFlag input)
                ∈ mw_parts (ReqBody request))
  ∧ (mandatoryFlag input = "1" ↔ input = "1" ∨ input = "true")
  ∧ (¬ (input = "1" ∨ input = "true") → mandatoryFlag input = "0")
  ∧ mandatoryFlag "" = "0" ∧ mandatoryFlag "TRUE" = "0"
  ∧ mandatoryFlag "True" = "0" ∧ mandatoryFlag "yes" = "0".
Proof.
  intros input. split; [reflexivity|]. split.
  { intros Hrange req.
    destruct (run_cases w)
      as [(_ & msg & ->)|[(_ & msg & ->)|(_ & request & o & evs & Hrun)]].
    - cbn [snd trace]. trace_norm. by intros ?%elem_of_nil.
    - cbn [snd trace]. trace_norm. by intros ?%elem_of_nil.
    - destruct Hrun as ((_ & _ & Hfields) & -> & Hn & _ & _).
      cbn [snd trace]. trace_norm. rewrite Hn.
      intros ->%list_elem_of_singleton. simpl. apply Hfields, Hrange.
      reflexivity. }
  unfold mandatoryFlag. repeat split; try reflexivity.
  - destruct (bool_decide_reflect (input = "1")); [auto|].
    destruct (bool_decide_reflect (input = "true")); [auto|]. discriminate.
  - intros [->| ->]; reflexivity.
  - intros Hn.
    destruct (bool_decide_reflect (input = "1")); [tauto|].
    destruct (bool_decide_reflect (input = "true")); [tauto|]. reflexivity.
Qed.

(** In the demo world, where [mandatory] is "true", the one request sent
    carries the part mandatory=1. *)
Lemma mandatory_witness :
  let w := demoWorld demoEnv answer200 in
  length (network_calls (trace (run w).2)) = 1%nat
  ∧ Forall (λ request, FieldPart "mandatory" "1" ∈ mw_parts (ReqBody request))
           (network_calls (trace (run w).2)).
Proof.
  split; [vm_compute; reflexivity|].
  apply Forall_forall. intros request Hin.
  apply (proj1 (proj2 (mandatory_is_normalized (demoWorld demoEnv answer200))));
    [apply demoWorld_range_visits_all|exact Hin].
Defined.

(** ** Decoding the response body (claim C9) *)

Lemma find_field_tag (f : field) : find_field (field_tag f) = Some f.
Proof. by destruct f. Qed.

Lemma get_set_field_eq (f : field) (s : string) (v : ResponseModel) :
  get_field f (set_field f s v) = s.
Proof. by destruct f. Qed.

Lemma get_set_field_ne (f f' : field) (s : string) (v : ResponseModel) :
  f ≠ f' → get_field f (set_field f' s v) = get_field f v.
Proof. by destruct f, f'. Qed.

Lemma decode_member_other (w : World) (f : field)
    (acc : ResponseModel * option error) (kv : string * json) :
  find_field kv.1 ≠ Some f →
  get_field f (decode_member w acc kv).1 = get_field f acc.1.
Proof.
  intros Hf. unfold decode_member.
  destruct (find_field kv.1) as [f'|]; [|done].
  destruct kv.2; try done. simpl.
  apply get_set_field_ne. congruence.
Qed.

Lemma decode_absent (w : World) (f : field) (members : list (string * json))
    (acc : ResponseModel * option error) :
  field_absent f members →
  get_field f (foldl (decode_member w) acc members).1 = get_field f acc.1.
Proof.
  revert acc. induction members as [|kv members IH]; intros acc Habs; [done|].
  simpl. rewrite IH.
  - apply decode_member_other, Habs. left.
  - intros kv' Hin. apply Habs. by right.
Qed.

Lemma decode_present (w : World) (f : field) (pre post : list (string * json))
    (key s : string) (acc : ResponseModel * option error) :
  find_field key = Some f →
  field_absent f post →
  get_field f (foldl (decode_member w) acc (pre ++ (key, JString s) :: post)).1 = s.
Proof.
  intros Hkey Habs. rewrite foldl_app. simpl.
  rewrite decode_absent by done.
  unfold decode_member. simpl. rewrite Hkey. simpl. apply get_set_field_eq.
Qed.

Example find_field_ignores_case :
  find_field "public_url" = Some FPublicURL
  ∧ find_field "Public_URL" = Some FPublicURL
  ∧ find_field "public-url" = None
  ∧ find_field "url" = None.
Proof. repeat split. Qed.

(** What a successful decode leaves in the struct. *)
Lemma decode_value_fields (w : World) (j : json) (v : ResponseModel) (e : option error) :
  decode_value w j zeroResponseModel = (v, e) →
  (∀ f s, json_string_field f j s → get_field f v = s)
  ∧ (∀ f, json_field_absent f j → get_field f v = "").
Proof.
  intros Hdec. split.
  - intros f s Hs. destruct j; try done.
    destruct Hs as (pre & key & post & -> & Hkey & Habs).
    simpl in Hdec.
    pose proof (decode_present w f pre post key s (zeroResponseModel, None) Hkey Habs)
      as Hget.
    by rewrite Hdec in Hget.
  - intros f Habs. destruct j; try done.
    + simpl in Hdec. injection Hdec as <- _. by destruct f.
    + simpl in Hdec, Habs.
      pose proof (decode_absent w f members (zeroResponseModel, None) Habs) as Hget.
      rewrite Hdec in Hget. simpl in Hget. rewrite Hget. by destruct f.
Qed.

(** Decoding reports an error only for a member that is decoded into a
    field and holds neither a string nor [null]: a field the body does
    not mention is no error. *)
Lemma decode_no_error (w : World) (members : list (string * json))
    (acc : ResponseModel * option error) :
  acc.2 = None →
  Forall member_well_typed members →
  (foldl (decode_member w) acc members).2 = None.
Proof.
  revert acc. induction members as [|kv members IH]; intros acc Hacc Hall; [done|].
  apply Forall_cons in Hall as [Hkv Hall]. simpl. apply IH; [|done].
  unfold decode_member, member_well_typed in *.
  destruct (find_field kv.1); [|done]. by destruct kv.2.
Qed.

(** *** The decoder and the names of the members *)

Lemma all_bytes_complete (c : ascii) : c ∈ all_bytes.
Proof.
  unfold all_bytes. rewrite <- (ascii_nat_embedding c).
  apply list_elem_of_fmap_2, elem_of_seq. pose proof (nat_ascii_bounded c). lia.
Qed.

(** Against a byte of a tag that is no capital letter, [asciiEqualFold]
    accepts exactly the bytes that [ascii_lower] maps to it. *)
Lemma fold_byte (sb tb : ascii) :
  is_capital sb = false →
  (if Ascii.eqb sb tb then true
   else if is_ascii_letter sb then (caseMasked sb =? caseMasked tb)%N
   else false)
  = Ascii.eqb (ascii_lower tb) sb.
Proof.
  intros Hsb.
  assert (Hall : forallb (λ s, forallb (fold_byte_agrees s) all_bytes) all_bytes = true)
    by (vm_compute; reflexivity).
  rewrite forallb_forall in Hall.
  specialize (Hall sb). rewrite <- list_elem_of_In in Hall.
  specialize (Hall (all_bytes_complete sb)).
  rewrite forallb_forall in Hall. specialize (Hall tb).
  rewrite <- list_elem_of_In in Hall. specialize (Hall (all_bytes_complete tb)).
  unfold fold_byte_agrees in Hall. rewrite Hsb in Hall. simpl in Hall.
  by apply bool_decide_eq_true in Hall.
Qed.

Lemma asciiEqualFold_lower (s t : string) :
  no_capital s = true → asciiEqualFold s t = String.eqb (lower_case t) s.
Proof.
  revert t. induction s as [|sb s IH]; intros [|tb t] Hs; try done.
  simpl in *. apply andb_true_iff in Hs as [Hsb Hs]. apply negb_true_iff in Hsb.
  rewrite (fold_byte sb tb Hsb), IH by done. reflexivity.
Qed.

(** A key is decoded into the field whose tag it bears, and into no
    field when it bears none of the three names. *)
Lemma find_field_named (key : string) (f : field) :
  find_field key = Some f ↔ lower_case key = field_tag f.
Proof.
  unfold find_field, struct_fields. cbn [find field_tag].
  rewrite !asciiEqualFold_lower by reflexivity.
  destruct (String.eqb_spec "config_url" key) as [<-|_];
    [destruct f; split; intros H; vm_compute in H; try discriminate H; reflexivity|].
  destruct (String.eqb_spec "public_url" key) as [<-|_];
    [destruct f; split; intros H; vm_compute in H; try discriminate H; reflexivity|].
  destruct (String.eqb_spec "build_url" key) as [<-|_];
    [destruct f; split; intros H; vm_compute in H; try discriminate H; reflexivity|].
  destruct (String.eqb_spec (lower_case key) "config_url") as [->|?];
    [destruct f; split; intros H; try discriminate H; reflexivity|].
  destruct (String.eqb_spec (lower_case key) "public_url") as [->|?];
    [destruct f; split; intros H; try discriminate H; reflexivity|].
  destruct (String.eqb_spec (lower_case key) "build_url") as [->|?];
    [destruct f; split; intros H; try discriminate H; reflexivity|].
  destruct f; split; intros H; try discriminate H; done.
Qed.

Lemma find_field_url_names (key : string) :
  lower_case key ∈ url_names ↔ ∃ f, find_field key = Some f.
Proof.
  unfold url_names. rewrite !elem_of_cons, elem_of_nil. split.
  - intros [H|[H|[H|[]]]].
    + exists FConfigURL. by apply find_field_named.
    + exists FPublicURL. by apply find_field_named.
    + exists FBuildURL. by apply find_field_named.
  - intros [f Hf]. apply find_field_named in Hf. destruct f; auto.
Qed.

Lemma json_carries_field (f : field) (j : json) (s : string) :
  json_carries (field_tag f) j s → json_string_field f j s.
Proof.
  destruct j; try done. intros (pre & post & -> & Hpost).
  exists pre, (field_tag f), post. split; [done|]. split; [apply find_field_tag|].
  intros kv Hin Hf. apply (Hpost kv Hin). by apply find_field_named.
Qed.

Lemma json_lacks_field (f : field) (j : json) :
  json_lacks (field_tag f) j → json_field_absent f j.
Proof.
  destruct j; try done. intros Hlacks kv Hin Hf.
  apply (Hlacks kv Hin). by apply find_field_named.
Qed.

Lemma url_member_well_typed (kv : string * json) :
  url_member_typed kv → member_well_typed kv.
Proof.
  unfold url_member_typed, member_well_typed. intros Hkv.
  destruct (find_field kv.1) as [f|] eqn:Hf; [|done].
  apply Hkv, find_field_url_names. by exists f.
Qed.

(** C9. On the success path the values handed to [envman] for the three
    URL keys are the strings the JSON body carries under the names
    public_url, build_url and config_url, unchanged, each under its own
    key: HOCKEYAPP_DEPLOY_PUBLIC_URL, HOCKEYAPP_DEPLOY_BUILD_URL and
    HOCKEYAPP_DEPLOY_CONFIG_URL.  For a name the body does not carry the
    value is the empty string.  Such a body is no error of the decoder: an
    object decodes without error as soon as each member that bears one of
    the three names holds a string or [null]. *)
Theorem exported_urls_equal_json_fields (w : World) :
  ((run w).1 = Returned tt →
   ∃ sent response j public build config,
     network_calls (trace (run w).2) = [sent]
     ∧ http_Do w sent = (Some response, None)
     ∧ json_scan w (Body response).1 = inl j
     ∧ exported (trace (run w).2)
       = [("HOCKEYAPP_DEPLOY_STATUS", "success");
          ("HOCKEYAPP_DEPLOY_PUBLIC_URL", public);
          ("HOCKEYAPP_DEPLOY_BUILD_URL", build);
          ("HOCKEYAPP_DEPLOY_CONFIG_URL", config)]
     ∧ (∀ s, json_carries "public_url" j s → public = s)
     ∧ (∀ s, json_carries "build_url" j s → build = s)
     ∧ (∀ s, json_carries "config_url" j s → config = s)
     ∧ (json_lacks "public_url" j → public = "")
     ∧ (json_lacks "build_url" j → build = "")
     ∧ (json_lacks "config_url" j → config = ""))
  ∧ (∀ members,
       Forall url_member_typed members →
       (decode_value w (JObject members) zeroResponseModel).2 = None).
Proof.
  split.
  2:{ intros members Hall. apply decode_no_error; [done|].
      eapply Forall_impl; [exact Hall|]. apply url_member_well_typed. }
  destruct (run_cases w)
    as [(_ & msg & ->)|[(_ & msg & ->)|(_ & request & o & evs & Hrun)]];
    [discriminate 1..|].
  destruct Hrun as (_ & -> & Hn & _ & Ha). cbn [fst snd trace].
  intros ->.
  destruct (http_Do w _) as [resp rerr] eqn:Hdo. cbn [fst snd] in Ha.
  inversion Ha as [| | | | | |response j v evs' Hst Hbody Hscan Hdec Hexp Hun]; subst.
  destruct (decode_value_fields w j v None Hdec) as [Hstr Habs].
  eexists _, response, j, (PublicURL v), (BuildURL v), (ConfigURL v).
  split; [|split; [exact Hdo|]].
  { trace_norm. by rewrite Hn. }
  split; [done|]. split.
  { trace_norm. by rewrite Hexp. }
  repeat split.
  - intros s Hs. apply (Hstr FPublicURL), (json_carries_field FPublicURL), Hs.
  - intros s Hs. apply (Hstr FBuildURL), (json_carries_field FBuildURL), Hs.
  - intros s Hs. apply (Hstr FConfigURL), (json_carries_field FConfigURL), Hs.
  - intros Hl. apply (Habs FPublicURL), (json_lacks_field FPublicURL), Hl.
  - intros Hl. apply (Habs FBuildURL), (json_lacks_field FBuildURL), Hl.
  - intros Hl. apply (Habs FConfigURL), (json_lacks_field FConfigURL), Hl.
Qed.

Lemma exported_urls_witness :
  let w := demoWorld demoEnv (Some (mkResponse 200 (body_public_only, None)), None) in
  ∃ sent response j public build config,
    network_calls (trace (run w).2) = [sent]
    ∧ http_Do w sent = (Some response, None)
    ∧ json_scan w (Body response).1 = inl j
    ∧ exported (trace (run w).2)
      = [("HOCKEYAPP_DEPLOY_STATUS", "success");
         ("HOCKEYAPP_DEPLOY_PUBLIC_URL", public);
         ("HOCKEYAPP_DEPLOY_BUILD_URL", build);
         ("HOCKEYAPP_DEPLOY_CONFIG_URL", config)]
    ∧ (∀ s, json_carries "public_url" j s → public = s)
    ∧ (∀ s, json_carries "build_url" j s → build = s)
    ∧ (∀ s, json_carries "config_url" j s → config = s)
    ∧ (json_lacks "public_url" j → public = "")
    ∧ (json_lacks "build_url" j → build = "")
    ∧ (json_lacks "config_url" j → config = "").
Proof.
  apply (proj1 (exported_urls_equal_json_fields
                  (demoWorld demoEnv
                     (Some (mkResponse 200 (body_public_only, None)), None)))).
  vm_compute. reflexivity.
Defined.

(** The body of the witness carries "https://a" under public_url and
    nothing under the two other names. *)
Example public_only_carries :
  let j := JObject [("public_url", JString "https://a")] in
  demo_scan body_public_only = inl j
  ∧ json_carries "public_url" j "https://a"
  ∧ json_lacks "build_url" j
  ∧ json_lacks "config_url" j.
Proof.
  split; [vm_compute; reflexivity|]. split; [|split].
  - exists [], []. split; [done|]. by intros kv ?%elem_of_nil.
  - intros kv ->%list_elem_of_singleton. vm_compute. discriminate.
  - intros kv ->%list_elem_of_singleton. vm_compute. discriminate.
Qed.

(** A body that writes a name in another case, among members the decoder
    skips: the value is exported under the key of that name. *)
Example other_members_are_skipped :
  let members := [("title", JString "App"); ("Public_URL", JString "https://a");
                  ("version", JNumber "7")] in
  (decode_value (demoWorld demoEnv answer200) (JObject members) zeroResponseModel)
  = (mkResponseModel "" "https://a" "", None)
  ∧ Forall url_member_typed members
  ∧ json_lacks "build_url" (JObject members).
Proof.
  split; [vm_compute; reflexivity|]. split.
  - repeat constructor; intros H; vm_compute in H;
      repeat (apply elem_of_cons in H as [H|H]; [discriminate H|]);
      by apply elem_of_nil in H.
  - intros kv Hin. repeat (apply elem_of_cons in Hin as [->|Hin]; [vm_compute; discriminate|]).
    by apply elem_of_nil in Hin.
Qed.

Example public_only_exports :
  exported (trace (run (demoWorld demoEnv
                          (Some (mkResponse 200 (body_public_only, None)), None))).2)
  = [("HOCKEYAPP_DEPLOY_STATUS", "success");
     ("HOCKEYAPP_DEPLOY_PUBLIC_URL", "https://a");
     ("HOCKEYAPP_DEPLOY_BUILD_URL", "");
     ("HOCKEYAPP_DEPLOY_CONFIG_URL", "")].
Proof. vm_compute. reflexivity. Qed.

(** ** Classification of the status code (claim C1) *)

(** Line 261 lets the closed interval from 200 to 300 through. *)
Lemma statusCodeFailed_false (code : Z) :
  statusCodeFailed code = false ↔ (200 ≤ code ≤ 300)%Z.
Proof. unfold statusCodeFailed. lia. Qed.

(** C1, at the boundary.  A response with status 300 is not classified as
    a failure: the run logs success, parses the body, exports the status
    "success" and ends with exit status 0. *)
Theorem status_300_takes_success_path :
  let w := demoWorld demoEnv answer300 in
  statusCodeFailed 300 = false
  ∧ (run w).1 = Returned tt
  ∧ exit_status (run w).1 = 0%Z
  ∧ unmarshal_calls (trace (run w).2) = ["{}"]
  ∧ exported (trace (run w).2)
    = [("HOCKEYAPP_DEPLOY_STATUS", "success");
       ("HOCKEYAPP_DEPLOY_PUBLIC_URL", "");
       ("HOCKEYAPP_DEPLOY_BUILD_URL", "");
       ("HOCKEYAPP_DEPLOY_CONFIG_URL", "")].
Proof. vm_compute. repeat split. Qed.

(** ** Transport failure (claim C2) *)

(** Whenever the client hands back no response, the run ends in the nil
    dereference of line 243, whatever error came with it: the handler of
    lines 250-259 is not reached and nothing is exported. *)
Lemma nil_response_panics (w : World) :
  (∀ request, (http_Do w request).1 = None) →
  network_calls (trace (run w).2) ≠ [] →
  (run w).1 = Panicked nil_dereference
  ∧ exit_status (run w).1 = 2%Z
  ∧ exported (trace (run w).2) = [].
Proof.
  intros Hnil Hnet.
  destruct (run_cases w)
    as [(_ & msg & Hrun)|[(_ & msg & Hrun)|(_ & request & o & evs & Hrun)]].
  - rewrite Hrun in Hnet. cbn [snd trace] in Hnet. by trace_norm_in Hnet.
  - rewrite Hrun in Hnet. cbn [snd trace] in Hnet. by trace_norm_in Hnet.
  - destruct Hrun as (_ & -> & _ & _ & Ha). rewrite Hnil in Ha.
    cbn [fst snd trace]. inversion Ha; subst. by trace_norm.
Qed.

(** C2, on a refused connection.  The client returns an error and no
    response; the process panics (exit status 2), the failure status is
    not exported, and nothing is logged after the request is sent. *)
Theorem transport_failure_panics :
  let w := demoWorld demoEnv (None, Some connection_refused) in
  (run w).1 = Panicked nil_dereference
  ∧ exit_status (run w).1 = 2%Z
  ∧ exit_status (run w).1 ≠ 1%Z
  ∧ length (network_calls (trace (run w).2)) = 1
  ∧ exported (trace (run w).2) = []
  ∧ printed (trace (run w).2) = printed (before_network (trace (run w).2)).
Proof. vm_compute. repeat split; discriminate. Qed.

(** ** Files opened and not closed (claim C3) *)

(** When the loop over the files succeeds, it has opened every entry. *)
Lemma addFiles_inl (w : World) (entries : list (string * string)) (mw mw' : Writer)
    (σ : Proc) :
  (addFiles w entries mw σ).1 = Returned (inl mw') →
  files_opened w entries = entries.*2.
Proof.
  revert mw σ. induction entries as [|[key file] rest IH]; intros mw σ; [done|].
  simpl. unfold mbind, Run_bind, open, mret, Run_ret.
  destruct (os_Open w file) as [f|err]; simpl; [|discriminate 1].
  destruct (f_readErr f) as [err|]; simpl; [discriminate 1|].
  intros Hrest. f_equal. eapply IH, Hrest.
Qed.

Lemma createRequest_inl (w : World) (url : string) (fields files : gmap string string)
    (request : Request) (σ : Proc) :
  (createRequest w url fields files σ).1 = Returned (inl request) →
  files_opened w (go_range w files) = (go_range w files).*2.
Proof.
  unfold createRequest. rewrite bind_run. unfold emit.
  destruct (addFields_ok (go_range w fields) (multipart_NewWriter w)) as (mw & -> & _).
  rewrite bind_run.
  match goal with
  | |- context [addFiles w ?es ?m ?s] =>
      pose proof (addFiles_inl w es m) as Hinl;
      destruct (addFiles_run w es m s) as (r & Hrun & _)
  end.
  rewrite Hrun in *. destruct r as [mw'|err]; [|discriminate 1].
  intros _. eapply Hinl. by rewrite Hrun.
Qed.

(** C3, as the code has it.  [createRequest] closes none of the files it
    opens.  When it returns, with a request or with an error, the files
    the program has opened and not closed are those of before the call
    followed by every file the call opened; when it returns a request,
    these are the files of all the entries of [files]. *)
Theorem createRequest_closes_no_file
    (w : World) (url : string) (fields files : gmap string string) (σ : Proc) :
  unclosed_files (createRequest w url fields files σ).2
  = unclosed_files σ ++ files_opened w (go_range w files)
  ∧ ∀ request,
      (createRequest w url fields files σ).1 = Returned (inl request) →
      files_opened w (go_range w files) = (go_range w files).*2.
Proof.
  split.
  - by destruct (createRequest_run w url fields files σ) as (r & -> & _).
  - intros request. apply createRequest_inl.
Qed.

(** C3, as stated, fails: [createRequest] builds the request for one
    existing file and returns without having closed it. *)
Lemma createRequest_leaves_file_unclosed :
  unclosed_files
    (createRequest (demoWorld demoEnv answer200)
       "https://rink.hockeyapp.net/api/2/apps/upload"
       ∅ {[ "ipa" := "app.apk" ]} startProc).2
  ≠ unclosed_files startProc.
Proof. vm_compute. discriminate. Qed.

Example createRequest_unclosed_after :
  unclosed_files
    (createRequest (demoWorld demoEnv answer200)
       "https://rink.hockeyapp.net/api/2/apps/upload"
       ∅ (<["dsym" := "mapping.txt"]> {[ "ipa" := "app.apk" ]}) startProc).2
  = ["app.apk"; "mapping.txt"].
Proof. vm_compute. reflexivity. Qed.

(** ** The token and the log (claim C10) *)

Lemma Getenv_with_token (t : string) (w : World) (key : string) :
  key ≠ "api_token" → os_Getenv (with_token t w) key = os_Getenv w key.
Proof.
  intros Hne. unfold os_Getenv, with_token. simpl.
  by rewrite lookup_insert_ne.
Qed.

Lemma readInputs_with_token (t : string) (w : World) :
  readInputs (with_token t w) = set_apiToken t (readInputs w).
Proof.
  unfold readInputs, set_apiToken. cbn [apkPath mappingPath appID notes notesType
    notify status tags commitSHA buildServerURL repositoryURL mandatory].
  f_equal; rewrite ?Getenv_with_token by done; try reflexivity.
  unfold os_Getenv, with_token. simpl. by rewrite lookup_insert_eq.
Qed.

Lemma addFiles_with_token (t : string) (w : World) (entries : list (string * string))
    (mw : Writer) (σ : Proc) :
  addFiles (with_token t w) entries mw σ = addFiles w entries mw σ.
Proof.
  revert mw σ. induction entries as [|[key file] rest IH]; intros mw σ; [done|].
  simpl. rewrite !bind_run. unfold open. simpl.
  destruct (os_Open w file) as [f|err]; [|done].
  destruct (f_readErr f); [done|]. apply IH.
Qed.

Lemma createRequest_with_token (t : string) (w : World) (url : string)
    (fields files : gmap string string) (σ : Proc) :
  createRequest (with_token t w) url fields files σ
  = createRequest w url fields files σ.
Proof.
  unfold createRequest. rewrite !bind_run. unfold emit.
  change (go_range (with_token t w)) with (go_range w).
  change (multipart_NewWriter (with_token t w)) with (multipart_NewWriter w).
  destruct (addFields (go_range w fields) (multipart_NewWriter w)) as [mw|err]; [|done].
  rewrite !bind_run, addFiles_with_token.
  by destruct (addFiles w _ _ _) as [[[mw'|err]| |] σ'].
Qed.

(** With a non-empty token, what happens before the request is sent does
    not depend on the token. *)
Lemma prepareRequest_with_token (t : string) (w : World) (i : Inputs) (σ : Proc) :
  t ≠ "" → apiToken i ≠ "" →
  prepareRequest (with_token t w) (set_apiToken t i) σ = prepareRequest w i σ.
Proof.
  intros Ht Hi. unfold prepareRequest. rewrite !bind_run.
  assert (Hval : validateInputs (with_token t w) (set_apiToken t i) σ
                 = validateInputs w i σ).
  { unfold validateInputs. rewrite !bind_run.
    change (checkPaths (with_token t w) (apkPath (set_apiToken t i))
              (mappingPath (set_apiToken t i)) σ)
      with (checkPaths w (apkPath i) (mappingPath i) σ).
    destruct (checkPaths w (apkPath i) (mappingPath i) σ) as [[[]| |] σ']; [|done..].
    unfold checkToken. simpl. by rewrite !decide_False. }
  rewrite Hval. destruct (validateInputs w i σ) as [[[]| |] σ1]; [|done..].
  rewrite !bind_run. destruct (logInfo "Performing request" σ1) as [[[]| |] σ2]; [|done..].
  rewrite !bind_run.
  change (requestURL (appID (set_apiToken t i))) with (requestURL (appID i)).
  change (requestFields (set_apiToken t i)) with (requestFields i).
  change (requestFiles (apkPath (set_apiToken t i)) (mappingPath (set_apiToken t i)))
    with (requestFiles (apkPath i) (mappingPath i)).
  rewrite createRequest_with_token.
  by destruct (createRequest w _ _ _ σ2) as [[[request|err]| |] σ3].
Qed.

Lemma preNetwork_with_token (t : string) (w : World) :
  t ≠ "" → os_Getenv w "api_token" ≠ "" →
  preNetwork (with_token t w) = preNetwork w.
Proof.
  intros Ht Hw. unfold preNetwork. rewrite readInputs_with_token, !bind_run.
  change (logConfigs (set_apiToken t (readInputs w)) startProc)
    with (logConfigs (readInputs w) startProc).
  destruct (logConfigs (readInputs w) startProc) as [[[]| |] σ]; [|done..].
  by apply prepareRequest_with_token.
Qed.

(** The trace before the network call is the trace of [preNetwork]. *)
Lemma before_network_run (w : World) :
  before_network (trace (run w).2) = trace (preNetwork w).2.
Proof.
  rewrite run_split. pose proof (preNetwork_no_network w) as Hquiet.
  destruct (preNetwork w) as [[request| |] σ]; cbn [snd] in *;
    [|by apply before_network_none..].
  pose proof (sendRequest_run w (readInputs w) request σ) as Hsent.
  cbv zeta in Hsent. destruct Hsent as (o & evs & -> & _).
  cbn [snd trace]. rewrite before_network_app by done. simpl. apply app_nil_r.
Qed.

(** C10. Two runs in the same world whose only difference is the value of
    [api_token], non-empty in both, behave alike up to the network call:
    the same events, hence the same output, and the line of the
    configuration log for the token reads "api_token: ***" in both. *)
Theorem log_before_network_hides_token (w : World) (t1 t2 : string) :
  t1 ≠ "" → t2 ≠ "" →
  let run1 := run (with_token t1 w) in
  let run2 := run (with_token t2 w) in
  before_network (trace run1.2) = before_network (trace run2.2)
  ∧ printed (before_network (trace run1.2)) = printed (before_network (trace run2.2))
  ∧ printed (before_network (trace run1.2)) !! 4%nat = Some ("  api_token: ***" +:+ LF)
  ∧ printed (before_network (trace run2.2)) !! 4%nat = Some ("  api_token: ***" +:+ LF).
Proof.
  intros H1 H2 run1 run2. subst run1 run2.
  assert (Heq : before_network (trace (run (with_token t1 w)).2)
                = before_network (trace (run (with_token t2 w)).2)).
  { rewrite !before_network_run.
    rewrite <- (preNetwork_with_token t1 (with_token t2 w)).
    - f_equal. f_equal. f_equal. unfold with_token. simpl. f_equal.
      symmetry. apply insert_insert_eq.
    - done.
    - unfold os_Getenv, with_token. simpl. by rewrite lookup_insert_eq. }
  split; [exact Heq|]. split; [by rewrite Heq|].
  assert (Hline : ∀ w', printed (before_network (trace (run w').2)) !! 4%nat
                        = Some ("  api_token: ***" +:+ LF)).
  { intros w'. rewrite before_network_run.
    destruct (preNetwork_cases w')
      as [(_ & msg & ->)|[(_ & msg & ->)|(_ & r & _ & ->)]];
      cbn [snd trace]; unfold request_events; rewrite !printed_app, printed_stdout;
      rewrite <- ?app_assoc; by rewrite lookup_app_l by (simpl; lia). }
  split; apply Hline.
Qed.

Lemma log_hides_token_witness :
  let run1 := run (with_token "secret" (demoWorld demoEnv answer200)) in
  let run2 := run (with_token "hunter2" (demoWorld demoEnv answer200)) in
  before_network (trace run1.2) = before_network (trace run2.2)
  ∧ printed (before_network (trace run1.2)) = printed (before_network (trace run2.2))
  ∧ printed (before_network (trace run1.2)) !! 4%nat = Some ("  api_token: ***" +:+ LF)
  ∧ printed (before_network (trace run2.2)) !! 4%nat = Some ("  api_token: ***" +:+ LF).
Proof.
  apply (log_before_network_hides_token (demoWorld demoEnv answer200)
           "secret" "hunter2"); discriminate.
Defined.

(** * Further properties of the code *)

(** ** [createRequest], exactly *)

Lemma addFields_exact (entries : list (string * string)) (mw : Writer) :
  addFields entries mw
  = inl (mkWriter (mw_boundary mw) (mw_parts mw ++ (field_part <$> entries))
                  (mw_closed mw)).
Proof.
  revert mw. induction entries as [|[k v] rest IH]; intros mw; simpl.
  - destruct mw. simpl. by rewrite app_nil_r.
  - rewrite IH. simpl. by rewrite <- app_assoc.
Qed.

Lemma addFiles_inl_exact (w : World) (entries : list (string * string))
    (mw mw' : Writer) (σ : Proc) :
  (addFiles w entries mw σ).1 = Returned (inl mw') →
  Forall (readable w) entries
  ∧ mw' = mkWriter (mw_boundary mw) (mw_parts mw ++ (file_part w <$> entries))
                   (mw_closed mw).
Proof.
  revert mw σ. induction entries as [|[key file] rest IH]; intros mw σ.
  - simpl. intros [= <-]. split; [constructor|]. destruct mw. simpl.
    by rewrite app_nil_r.
  - simpl. rewrite bind_run. unfold open.
    destruct (os_Open w file) as [f|err] eqn:Hopen; simpl; [|discriminate 1].
    destruct (f_readErr f) as [err|] eqn:Hread; simpl; [discriminate 1|].
    intros Hrest. apply IH in Hrest as [Hall ->]. simpl. split.
    + constructor; [|done]. exists f. done.
    + unfold file_part at 2. simpl. rewrite Hopen, last_part_write_snoc.
      simpl. by rewrite <- app_assoc.
Qed.

Lemma addFiles_readable (w : World) (entries : list (string * string))
    (mw : Writer) (σ : Proc) :
  Forall (readable w) entries →
  (addFiles w entries mw σ).1
  = Returned (inl (mkWriter (mw_boundary mw)
                            (mw_parts mw ++ (file_part w <$> entries))
                            (mw_closed mw))).
Proof.
  revert mw σ. induction entries as [|[key file] rest IH]; intros mw σ Hall.
  - simpl. destruct mw. simpl. by rewrite app_nil_r.
  - apply Forall_cons in Hall as [(f & Hopen & Hread) Hall]. simpl in Hopen.
    simpl. rewrite bind_run. unfold open. rewrite Hopen. simpl. rewrite Hread.
    rewrite IH by done. simpl.
    unfold file_part at 2. simpl. rewrite Hopen, last_part_write_snoc.
    simpl. by rewrite <- app_assoc.
Qed.

(** The outcome of [createRequest] is its result on the state it leaves. *)
Lemma createRequest_returns (w : World) (url : string)
    (fields files : gmap string string) (σ : Proc) :
  ∃ r, (createRequest w url fields files σ).1 = Returned r.
Proof.
  destruct (createRequest_run w url fields files σ) as (r & -> & _). by exists r.
Qed.

Lemma createRequest_result (w : World) (url : string)
    (fields files : gmap string string) (σ : Proc) :
  (createRequest w url fields files σ).1
  = match (addFiles w (go_range w files)
             (mkWriter (multipart_boundary w) (field_part <$> go_range w fields) false)
             (mkProc (trace σ ++ [EvCreateRequest url]) (unclosed_files σ))).1 with
    | Returned (inl mw) =>
        match url_Parse_err w url with
        | Some err => Returned (inr err)
        | None =>
            Returned (inl (Header_Set (mkRequest "POST" url ∅ (Writer_Close mw))
                             "Content-Type" (FormDataContentType (Writer_Close mw))))
        end
    | Returned (inr err) => Returned (inr err)
    | Exited c => Exited c
    | Panicked msg => Panicked msg
    end.
Proof.
  unfold createRequest. rewrite bind_run. unfold emit.
  rewrite addFields_exact. simpl. rewrite bind_run.
  destruct (addFiles w _ _ _) as [[[mw|err]| |] σ']; try done.
  simpl. unfold http_NewRequest. by destruct (url_Parse_err w url).
Qed.

Lemma createRequest_ready (w : World) (url : string)
    (fields files : gmap string string) (σ : Proc) :
  Forall (readable w) (go_range w files) →
  url_Parse_err w url = None →
  (createRequest w url fields files σ).1
  = Returned (inl (built_request w url fields files)).
Proof.
  intros Hall Hurl. rewrite createRequest_result, addFiles_readable by done.
  rewrite Hurl. reflexivity.
Qed.

Lemma createRequest_inl_built (w : World) (url : string)
    (fields files : gmap string string) (request : Request) (σ : Proc) :
  (createRequest w url fields files σ).1 = Returned (inl request) →
  request = built_request w url fields files
  ∧ Forall (readable w) (go_range w files) ∧ url_Parse_err w url = None.
Proof.
  rewrite createRequest_result.
  destruct (addFiles w _ _ _).1 as [[mw|err]| |] eqn:Hfiles; try discriminate 1.
  apply addFiles_inl_exact in Hfiles as [Hall ->].
  destruct (url_Parse_err w url); [discriminate 1|].
  intros [= <-]. done.
Qed.

(** X1. [createRequest] returns a request exactly when every file of
    [files] can be opened and read to its end and the URL parses.  The
    request is then a POST to the URL with the multipart content type and a
    closed body holding one part for each field followed by one part for
    each file, in iteration order, each file part carrying the path as its
    file name and the file's bytes.  Otherwise it returns an error: it
    never ends the process itself. *)
Theorem createRequest_succeeds_iff
    (w : World) (url : string) (fields files : gmap string string) (σ : Proc) :
  let r := (createRequest w url fields files σ).1 in
  (r = Returned (inl (built_request w url fields files))
   ↔ Forall (readable w) (go_range w files) ∧ url_Parse_err w url = None)
  ∧ (∀ request, r = Returned (inl request) →
                request = built_request w url fields files)
  ∧ (∃ v, r = Returned v).
Proof.
  intros r. subst r. split; [split|split].
  - intros H. by apply createRequest_inl_built in H as (_ & ? & ?).
  - intros [? ?]. by apply createRequest_ready.
  - intros request H. by apply createRequest_inl_built in H as (? & _).
  - apply createRequest_returns.
Qed.

(** ** From the checks to the network *)

(** With valid inputs, what happens before the network is decided by
    [createRequest]. *)
Lemma preNetwork_valid (w : World) :
  let i := readInputs w in
  inputs_valid w i →
  preNetwork w
  = match createRequest w (requestURL (appID i)) (requestFields i)
            (requestFiles (apkPath i) (mappingPath i)) (before_createRequest i) with
    | (Returned (inl request), σ) => (Returned request, σ)
    | (Returned (inr err), σ) =>
        logFail w ("Failed to create request, error: " +:+ err_GoString err) σ
    | (Exited c, σ) => (Exited c, σ)
    | (Panicked msg, σ) => (Panicked msg, σ)
    end.
Proof.
  intros i Hv. unfold preNetwork. fold i.
  rewrite !bind_run, !logConfigs_run. unfold prepareRequest. rewrite !bind_run.
  destruct (validation_cases w i
              (mkProc (trace startProc ++ (EvStdout <$> config_lines i))
                      (unclosed_files startProc))) as [[_ ->]|[Hinv _]]; [|done].
  rewrite !bind_run, !logInfo_run, !bind_run.
  cbn [trace unclosed_files startProc app]. fold (before_createRequest i).
  by destruct (createRequest w _ _ _ _) as [[[request|err]| |] σ].
Qed.

Lemma preNetwork_returned (w : World) (request : Request) (σ : Proc) :
  preNetwork w = (Returned request, σ) →
  request_ready w
  ∧ request = built_request w (requestURL (appID (readInputs w)))
                (requestFields (readInputs w))
                (requestFiles (apkPath (readInputs w)) (mappingPath (readInputs w)))
  ∧ σ = mkProc (request_events w (readInputs w)) (request_files w (readInputs w)).
Proof.
  intros Hpre.
  pose proof (preNetwork_cases w) as Hcases. cbv zeta in Hcases.
  destruct Hcases as [(_ & msg & H)|[(_ & msg & H)|(Hv & r & _ & H)]];
    [rewrite H in Hpre; discriminate Hpre..|].
  rewrite H in Hpre. injection Hpre as -> <-.
  pose proof (preNetwork_valid w Hv) as Hval. cbv zeta in Hval.
  rewrite H in Hval.
  destruct (createRequest w _ _ _ _) as [[[r|err]| |] σ'] eqn:Hcreate;
    [|by rewrite logFail_run in Hval|done..].
  injection Hval as -> _.
  apply (f_equal fst) in Hcreate. simpl in Hcreate.
  apply createRequest_inl_built in Hcreate as (-> & Hall & Hurl).
  done.
Qed.

Lemma preNetwork_ready (w : World) :
  request_ready w →
  preNetwork w
  = (Returned (built_request w (requestURL (appID (readInputs w)))
                 (requestFields (readInputs w))
                 (requestFiles (apkPath (readInputs w)) (mappingPath (readInputs w)))),
     mkProc (request_events w (readInputs w)) (request_files w (readInputs w))).
Proof.
  intros (Hv & Hall & Hurl).
  pose proof (preNetwork_cases w) as Hcases. cbv zeta in Hcases.
  pose proof (preNetwork_valid w Hv) as Hval. cbv zeta in Hval.
  pose proof (createRequest_ready w _ (requestFields (readInputs w)) _
                (before_createRequest (readInputs w)) Hall Hurl) as Hcreate.
  destruct (createRequest w _ _ _ _) as [[[r|err]| |] σ'];
    simpl in Hcreate; try discriminate Hcreate.
  injection Hcreate as ->.
  destruct Hcases as [(Hinv & _)|[(_ & msg & H)|(_ & r & _ & H)]]; [done| |].
  - rewrite H in Hval. discriminate Hval.
  - rewrite H in Hval. rewrite H. by injection Hval as -> ->.
Qed.

(** ** How a run ends *)

Lemma ends_with_split (X l : list event) :
  ends_with X l → ∃ pre, l = pre ++ X ∧ body_closed pre = false.
Proof.
  induction 1 as [|e l He _ (pre & -> & Hpre)|ls l _ (pre & -> & Hpre)].
  - by exists [].
  - exists (e :: pre). split; [done|]. simpl. by rewrite He.
  - exists ((EvStdout <$> ls) ++ pre). split; [by rewrite app_assoc|].
    unfold body_closed in *. rewrite existsb_app, Hpre, orb_false_r.
    clear. induction ls; auto.
Qed.

Ltac ends_with_tac :=
  repeat first [apply ends_cons; [reflexivity|] | apply ends_app];
  apply ends_here.

(** The course of [sendRequest]: how it ends, and on the success path
    what the exports come to. *)
Lemma sendRequest_course (w : World) (i : Inputs) (request : Request) (σ : Proc) :
  let sent := Header_Add request "X-HockeyAppToken" (apiToken i) in
  ∃ o evs,
    sendRequest w i request σ
    = (o, mkProc (trace σ ++ EvHTTPDo sent :: evs) (unclosed_files σ))
    ∧ match o with
      | Returned _ => ends_with [EvBodyClose] evs
      | Exited c => c = 1%Z ∧ ∃ errorMsg, ends_with (logFail_events w errorMsg) evs
      | Panicked msg =>
          msg = nil_dereference ∧ evs = [] ∧ (http_Do w sent).1 = None
      end
    ∧ ∀ v, good_answer w (http_Do w sent) v →
           (o, exported evs) = export_outcome w (success_exports v).
Proof.
  intros sent. unfold sendRequest, processResponse. fold sent.
  send_exec.
  all: rewrite <- ?app_assoc; simpl.
  all: do 2 eexists; split; [reflexivity|].
  all: split;
    [first [by ends_with_tac | split; [reflexivity|eexists; by ends_with_tac] | done]|].
  all: intros v' (response' & j' & Hans & Hst & Hbody & Hscan & Hdec).
  all: simplify_eq.
  all: repeat match goal with
              | H : Body _ = _ |- _ => rewrite H in *; clear H
              end.
  all: simpl in *; try congruence.
  all: repeat match goal with
              | H1 : ?a = _, H2 : ?a = _ |- _ => rewrite H1 in H2; simplify_eq
              end.
  all: trace_norm; simpl.
  all: repeat match goal with H : envman_Run _ _ _ = _ |- _ => rewrite H end.
  all: reflexivity.
Qed.

Lemma logFail_events_tail (w : World) (errorMsg : string) :
  logFail_events w errorMsg = failure_tail w errorMsg.
Proof.
  unfold logFail_events, failure_tail, logFail. run_exec; reflexivity.
Qed.

Lemma body_closed_app (l l' : list event) :
  body_closed (l ++ l') = body_closed l || body_closed l'.
Proof. apply existsb_app. Qed.

Lemma body_closed_stdout (ls : list string) : body_closed (EvStdout <$> ls) = false.
Proof. induction ls; auto. Qed.

Lemma body_closed_opens (ps : list string) : body_closed (EvOpen <$> ps) = false.
Proof. induction ps; auto. Qed.

Lemma body_closed_logFail (w : World) (errorMsg : string) :
  body_closed (logFail_events w errorMsg) = false.
Proof.
  rewrite logFail_events_tail. unfold failure_tail.
  by destruct (envman_Run w _ _).
Qed.

Lemma body_closed_request_events (w : World) (i : Inputs) :
  body_closed (request_events w i) = false.
Proof.
  unfold request_events.
  rewrite !body_closed_app, !body_closed_stdout. simpl.
  apply body_closed_opens.
Qed.

(** A run that is not ready for the network ends in [logFail] without
    having touched the network, the decoder or the success exports. *)
Lemma run_not_ready (w : World) :
  ¬ request_ready w →
  ∃ pre errorMsg fs,
    run w = (Exited 1, mkProc (pre ++ logFail_events w errorMsg) fs)
    ∧ network_calls pre = [] ∧ unmarshal_calls pre = []
    ∧ exported pre = [] ∧ body_closed pre = false.
Proof.
  intros Hnot. rewrite run_split.
  pose proof (preNetwork_cases w) as Hcases. cbv zeta in Hcases.
  destruct Hcases as [(_ & msg & H)|[(_ & msg & H)|(_ & r & _ & H)]].
  - rewrite H. eexists _, msg, _. split; [reflexivity|].
    by rewrite network_calls_stdout, unmarshal_calls_stdout, exported_stdout,
         body_closed_stdout.
  - rewrite H. eexists _, msg, _. split; [reflexivity|].
    destruct (request_events_quiet w (readInputs w)) as (-> & -> & -> & _).
    by rewrite body_closed_request_events.
  - by apply preNetwork_returned in H as (? & _).
Qed.

(** A run that is ready for the network sends the request; what follows
    is the course of [sendRequest]. *)
Lemma run_ready (w : World) :
  request_ready w →
  ∃ o evs,
    run w = (o, mkProc (request_events w (readInputs w)
                        ++ EvHTTPDo (request_sent w) :: evs)
                       (request_files w (readInputs w)))
    ∧ network_calls evs = []
    ∧ answered w (http_Do w (request_sent w)).1 (http_Do w (request_sent w)).2 o evs
    ∧ match o with
      | Returned _ => ends_with [EvBodyClose] evs
      | Exited c => c = 1%Z ∧ ∃ errorMsg, ends_with (logFail_events w errorMsg) evs
      | Panicked msg =>
          msg = nil_dereference ∧ evs = []
          ∧ (http_Do w (request_sent w)).1 = None
      end
    ∧ ∀ v, good_answer w (http_Do w (request_sent w)) v →
           (o, exported evs) = export_outcome w (success_exports v).
Proof.
  intros Hready. rewrite run_split, (preNetwork_ready w Hready).
  pose proof (sendRequest_run w (readInputs w)
                (built_request w (requestURL (appID (readInputs w)))
                   (requestFields (readInputs w))
                   (requestFiles (apkPath (readInputs w))
                      (mappingPath (readInputs w))))
                (mkProc (request_events w (readInputs w))
                        (request_files w (readInputs w)))) as Hrun.
  pose proof (sendRequest_course w (readInputs w)
                (built_request w (requestURL (appID (readInputs w)))
                   (requestFields (readInputs w))
                   (requestFiles (apkPath (readInputs w))
                      (mappingPath (readInputs w))))
                (mkProc (request_events w (readInputs w))
                        (request_files w (readInputs w)))) as Hcourse.
  cbv zeta in Hrun, Hcourse. fold (request_sent w) in Hrun, Hcourse.
  destruct Hrun as (o & evs & Heq & Hn & _ & Ha).
  destruct Hcourse as (o' & evs' & Heq' & Hend & Hexp).
  rewrite Heq in Heq'. injection Heq' as <- Hevs.
  apply app_inv_head in Hevs. injection Hevs as <-.
  exists o, evs. rewrite Heq. done.
Qed.

Lemma ready_or_not (w : World) : request_ready w ∨ ¬ request_ready w.
Proof.
  destruct (preNetwork w) as [[request| |] σ] eqn:Hpre.
  - left. by apply preNetwork_returned in Hpre as (? & _).
  - right. intros Hready. rewrite (preNetwork_ready w Hready) in Hpre. discriminate.
  - right. intros Hready. rewrite (preNetwork_ready w Hready) in Hpre. discriminate.
Qed.

Lemma network_calls_run (w : World) :
  (request_ready w → network_calls (trace (run w).2) = [request_sent w])
  ∧ (¬ request_ready w → network_calls (trace (run w).2) = []).
Proof.
  split.
  - intros Hready. destruct (run_ready w Hready) as (o & evs & -> & Hn & _).
    cbn [snd trace]. trace_norm. by rewrite Hn.
  - intros Hnot.
    destruct (run_not_ready w Hnot) as (pre & msg & fs & -> & Hn & _).
    cbn [snd trace]. trace_norm. by rewrite Hn.
Qed.

(** X2. The network is contacted exactly when the inputs are valid, every
    file can be read and the URL parses; there is never a second call.
    The request handed to the client is a POST to the upload URL whose
    header carries the token under X-HockeyAppToken and the multipart
    content type with the boundary, and whose body is closed. *)
Theorem network_call_iff_ready (w : World) :
  let i := readInputs w in
  (request_ready w ↔ network_calls (trace (run w).2) = [request_sent w])
  ∧ (¬ request_ready w ↔ network_calls (trace (run w).2) = [])
  ∧ Method (request_sent w) = "POST"
  ∧ URL (request_sent w) = requestURL (appID i)
  ∧ Header (request_sent w) !! "X-HockeyAppToken" = Some [apiToken i]
  ∧ Header (request_sent w) !! "Content-Type"
    = Some ["multipart/form-data; boundary=" +:+ multipart_boundary w]
  ∧ mw_closed (ReqBody (request_sent w)) = true.
Proof.
  intros i. destruct (network_calls_run w) as [Hyes Hno].
  split; [|split; [|repeat split]].
  - split; [done|]. intros Hcalls.
    destruct (ready_or_not w) as [?|Hnot]; [done|].
    rewrite (Hno Hnot) in Hcalls. discriminate.
  - split; [done|]. intros Hcalls Hready.
    rewrite (Hyes Hready) in Hcalls. discriminate.
Qed.

Lemma export_outcome_ok (w : World) (kvs : list (string * string)) :
  exports_succeed w kvs → export_outcome w kvs = (Returned tt, kvs).
Proof.
  induction kvs as [|kv kvs IH]; intros Hall; [done|]. simpl.
  rewrite (Hall kv) by left. rewrite IH; [done|].
  intros kv' Hin. apply Hall. by right.
Qed.

Lemma export_outcome_returned (w : World) (kvs : list (string * string)) :
  (export_outcome w kvs).1 = Returned tt → exports_succeed w kvs.
Proof.
  induction kvs as [|kv kvs IH]; simpl; [by intros _ kv ?%elem_of_nil|].
  destruct (envman_Run w kv.1 kv.2) eqn:Hrun; [discriminate 1|].
  destruct (export_outcome w kvs) as [o l]. simpl in *. intros Ho kv' Hin.
  apply elem_of_cons in Hin as [->|Hin]; [done|]. by apply IH.
Qed.

Lemma export_outcome_fail (w : World) (kvs : list (string * string)) (n : nat)
    (kv : string * string) (e : error) :
  kvs !! n = Some kv →
  envman_Run w kv.1 kv.2 = Some e →
  exports_succeed w (take n kvs) →
  export_outcome w kvs = (Exited 1, take (S n) kvs ++ failed_export).
Proof.
  revert n. induction kvs as [|kv' kvs IH]; intros n Hn Hfail Hok; [done|].
  destruct n as [|n]; simpl in *.
  - injection Hn as ->. by rewrite Hfail.
  - rewrite (Hok kv') by left.
    rewrite (IH n Hn Hfail); [done|].
    intros kv'' Hin. apply Hok. by right.
Qed.

(** X3. A run ends in one of three ways.  [main] returns, and then the
    last thing it did was to close the response body, once.  Or the
    process exits with status 1 through [logFail]: the last acts are the
    export of the failure status, a warning when that export fails, and
    the error line; the response body is never closed on this path.  Or it
    panics on the nil response, which happens only right after the
    request was sent and the client handed back no response. *)
Theorem run_ends_three_ways (w : World) :
  match (run w).1 with
  | Returned _ =>
      ∃ pre, trace (run w).2 = pre ++ [EvBodyClose] ∧ body_closed pre = false
  | Exited c =>
      c = 1%Z
      ∧ body_closed (trace (run w).2) = false
      ∧ ∃ pre errorMsg, trace (run w).2 = pre ++ failure_tail w errorMsg
  | Panicked msg =>
      msg = nil_dereference
      ∧ request_ready w
      ∧ (http_Do w (request_sent w)).1 = None
      ∧ trace (run w).2
        = request_events w (readInputs w) ++ [EvHTTPDo (request_sent w)]
  end.
Proof.
  destruct (ready_or_not w) as [Hready|Hnot].
  - destruct (run_ready w Hready) as (o & evs & -> & _ & _ & Hend & _).
    cbn [fst snd trace]. destruct o as [[]|c|msg].
    + apply ends_with_split in Hend as (pre & -> & Hpre).
      exists (request_events w (readInputs w) ++ EvHTTPDo (request_sent w) :: pre).
      split; [by rewrite <- app_assoc|].
      by rewrite body_closed_app, body_closed_request_events.
    + destruct Hend as (-> & msg & Hend).
      apply ends_with_split in Hend as (pre & -> & Hpre).
      split; [done|]. split.
      * rewrite body_closed_app, body_closed_request_events. simpl.
        by rewrite body_closed_app, Hpre, body_closed_logFail.
      * exists (request_events w (readInputs w) ++ EvHTTPDo (request_sent w) :: pre), msg.
        by rewrite logFail_events_tail, <- app_assoc.
    + by destruct Hend as (-> & -> & ?).
  - destruct (run_not_ready w Hnot) as (pre & msg & fs & -> & _ & _ & _ & Hpre).
    cbn [fst snd trace]. split; [done|]. split.
    + by rewrite body_closed_app, Hpre, body_closed_logFail.
    + exists pre, msg. by rewrite logFail_events_tail.
Qed.

(** X4. [main] returns, so that the process exits with status 0, exactly
    when the request could be built, the client answered with a readable
    response of accepted status whose body decodes without error, and
    every one of the four exports succeeded.  The exports are then the
    success status and the three URLs of the decoded response, in that
    order, and nothing else. *)
Theorem exit_zero_iff (w : World) :
  ((run w).1 = Returned tt
   ↔ request_ready w
     ∧ ∃ v, good_answer w (http_Do w (request_sent w)) v
            ∧ exports_succeed w (success_exports v))
  ∧ ∀ v, request_ready w →
         good_answer w (http_Do w (request_sent w)) v →
         exports_succeed w (success_exports v) →
         exported (trace (run w).2) = success_exports v.
Proof.
  split; [split|].
  - intros Hret. destruct (ready_or_not w) as [Hready|Hnot].
    2:{ destruct (run_not_ready w Hnot) as (pre & msg & fs & Hrun & _).
        rewrite Hrun in Hret. discriminate. }
    split; [done|].
    destruct (run_ready w Hready) as (o & evs & Hrun & _ & Ha & _ & Hexp).
    rewrite Hrun in Hret. cbn [fst] in Hret. subst o.
    destruct (http_Do w (request_sent w)) as [resp rerr] eqn:Hdo.
    cbn [fst snd] in Ha.
    inversion Ha as [| | | | | |response j v evs' Hst Hbody Hscan Hdec Hex Hun]; subst.
    assert (Hgood : good_answer w (Some response, None) v) by (exists response, j; done).
    exists v. split; [done|].
    apply export_outcome_returned. by rewrite <- (Hexp v Hgood).
  - intros (Hready & v & Hgood & Hok).
    destruct (run_ready w Hready) as (o & evs & -> & _ & _ & _ & Hexp).
    specialize (Hexp v Hgood). rewrite export_outcome_ok in Hexp by done.
    by injection Hexp as -> _.
  - intros v Hready Hgood Hok.
    destruct (run_ready w Hready) as (o & evs & -> & _ & _ & _ & Hexp).
    specialize (Hexp v Hgood). rewrite export_outcome_ok in Hexp by done.
    injection Hexp as -> Hexp. cbn [snd trace]. trace_norm.
    by rewrite Hexp.
Qed.

(** X5. On the success path an export that fails is fatal, and the
    exports made before it stand: when the first failing export is the
    one at position n, the process exits with status 1 and [envman] has
    been run for the first n+1 pairs and then for the failure status. *)
Theorem failed_export_is_fatal
    (w : World) (v : ResponseModel) (n : nat) (kv : string * string) (e : error) :
  request_ready w →
  good_answer w (http_Do w (request_sent w)) v →
  success_exports v !! n = Some kv →
  envman_Run w kv.1 kv.2 = Some e →
  exports_succeed w (take n (success_exports v)) →
  (run w).1 = Exited 1
  ∧ exported (trace (run w).2)
    = take (S n) (success_exports v)
      ++ [(hockeyAppDeployStatusKey, hockeyAppDeployStatusFailed)].
Proof.
  intros Hready Hgood Hn Hfail Hok.
  destruct (run_ready w Hready) as (o & evs & -> & _ & _ & _ & Hexp).
  specialize (Hexp v Hgood).
  rewrite (export_outcome_fail w _ n kv e Hn Hfail Hok) in Hexp.
  injection Hexp as -> Hexp. cbn [fst snd trace]. split; [done|].
  trace_norm. by rewrite Hexp.
Qed.

Lemma demoWorld_ready (answer : option Response * option error) :
  request_ready (demoWorld demoEnv answer).
Proof.
  split; [|split].
  - split; [done|]. split; [reflexivity|]. split; [|done].
    intros Hmap. by destruct Hmap.
  - vm_compute. constructor; [|constructor].
    eexists. split; reflexivity.
  - reflexivity.
Qed.

Lemma demoWorld_good_answer :
  good_answer (demoWorld demoEnv answer200) answer200
              (mkResponseModel "https://c" "https://a" "https://b").
Proof. eexists _, _. repeat split; reflexivity. Qed.

Lemma failed_export_witness :
  let w := envman_failing hockeyAppDeployPublicURLKey (demoWorld demoEnv answer200) in
  (run w).1 = Exited 1
  ∧ exported (trace (run w).2)
    = [(hockeyAppDeployStatusKey, hockeyAppDeployStatusSuccess);
       (hockeyAppDeployPublicURLKey, "https://a");
       (hockeyAppDeployStatusKey, hockeyAppDeployStatusFailed)].
Proof.
  apply (failed_export_is_fatal
           (envman_failing hockeyAppDeployPublicURLKey (demoWorld demoEnv answer200))
           (mkResponseModel "https://c" "https://a" "https://b") 1
           (hockeyAppDeployPublicURLKey, "https://a")
           (mkError "exit status 1" "&exec.ExitError{}" false)).
  - exact (demoWorld_ready answer200).
  - exact demoWorld_good_answer.
  - reflexivity.
  - reflexivity.
  - intros kv Hin. apply list_elem_of_singleton in Hin as ->. reflexivity.
Defined.

(** X6. A response of accepted status whose body cannot be read to its
    end is fatal: the process exits with status 1, the body is never
    handed to [json.Unmarshal], and the only export is the failure
    status. *)
Theorem body_read_failure_is_fatal (w : World) (response : Response) (e : error) :
  request_ready w →
  http_Do w (request_sent w) = (Some response, None) →
  statusCodeFailed (StatusCode response) = false →
  (Body response).2 = Some e →
  (run w).1 = Exited 1
  ∧ unmarshal_calls (trace (run w).2) = []
  ∧ exported (trace (run w).2)
    = [(hockeyAppDeployStatusKey, hockeyAppDeployStatusFailed)].
Proof.
  intros Hready Hdo Hst Hbody.
  destruct (run_ready w Hready) as (o & evs & -> & _ & Ha & _).
  rewrite Hdo in Ha. cbn [fst snd trace] in *. trace_norm.
  inversion Ha; subst; try congruence.
  by repeat match goal with H : _ = _ |- _ => rewrite H end.
Qed.

Lemma body_read_failure_witness :
  let w := demoWorld demoEnv answer_truncated in
  (run w).1 = Exited 1
  ∧ unmarshal_calls (trace (run w).2) = []
  ∧ exported (trace (run w).2)
    = [(hockeyAppDeployStatusKey, hockeyAppDeployStatusFailed)].
Proof.
  apply (body_read_failure_is_fatal (demoWorld demoEnv answer_truncated)
           (mkResponse 200 ("{", Some unexpected_EOF)) unexpected_EOF).
  - exact (demoWorld_ready answer_truncated).
  - reflexivity.
  - reflexivity.
  - reflexivity.
Defined.

(** X7. A response of accepted status whose body was read but for which
    [json.Unmarshal] reports an error (bad syntax, or a value of the wrong
    type for a field) is fatal: the body was handed to the decoder once,
    the process exits with status 1 and the only export is the failure
    status. *)
Theorem parse_failure_is_fatal (w : World) (response : Response) :
  request_ready w →
  http_Do w (request_sent w) = (Some response, None) →
  statusCodeFailed (StatusCode response) = false →
  (Body response).2 = None →
  unmarshal_fails w (Body response).1 →
  (run w).1 = Exited 1
  ∧ unmarshal_calls (trace (run w).2) = [(Body response).1]
  ∧ exported (trace (run w).2)
    = [(hockeyAppDeployStatusKey, hockeyAppDeployStatusFailed)].
Proof.
  intros Hready Hdo Hst Hbody Hfails.
  destruct (run_ready w Hready) as (o & evs & -> & _ & Ha & _).
  rewrite Hdo in Ha. cbn [fst snd trace] in *. trace_norm.
  unfold unmarshal_fails in Hfails.
  inversion Ha; subst; try congruence.
  - by repeat match goal with H : _ = _ |- _ => rewrite H end.
  - exfalso. match goal with H : json_scan _ _ = _ |- _ => rewrite H in Hfails end.
    match goal with H : decode_value _ _ _ = _ |- _ => rewrite H in Hfails end.
    by apply Hfails.
  - exfalso. match goal with H : json_scan _ _ = _ |- _ => rewrite H in Hfails end.
    match goal with H : decode_value _ _ _ = _ |- _ => rewrite H in Hfails end.
    by apply Hfails.
Qed.

Lemma parse_failure_witness :
  let w := demoWorld demoEnv answer_html in
  (run w).1 = Exited 1
  ∧ unmarshal_calls (trace (run w).2) = ["<html>"]
  ∧ exported (trace (run w).2)
    = [(hockeyAppDeployStatusKey, hockeyAppDeployStatusFailed)].
Proof.
  apply (parse_failure_is_fatal (demoWorld demoEnv answer_html)
           (mkResponse 200 ("<html>", None))).
  - exact (demoWorld_ready answer_html).
  - reflexivity.
  - reflexivity.
  - reflexivity.
  - exact I.
Defined.

(** ** The checks of the inputs *)

(** X8. [IsPathExists] answers (true, nil) exactly for a non-empty path
    that [os.Stat] finds, (false, nil) exactly for a non-empty path for
    which [os.Stat] reports that nothing is there, and an error otherwise:
    the error of [os.Stat], or "No path provided" for the empty path,
    which is never looked up.  It never answers true together with an
    error. *)
Theorem IsPathExists_cases (w : World) (pth : string) :
  (IsPathExists w pth = (true, None) ↔ pth ≠ "" ∧ ∃ fi, os_Stat w pth = inl fi)
  ∧ (IsPathExists w pth = (false, None)
     ↔ pth ≠ "" ∧ ∃ err, os_Stat w pth = inr err ∧ err_IsNotExist err = true)
  ∧ (∀ err, IsPathExists w pth = (false, Some err)
            ↔ (pth = "" ∧ err = errors_New "No path provided")
              ∨ (pth ≠ "" ∧ os_Stat w pth = inr err ∧ err_IsNotExist err = false))
  ∧ (∀ err, IsPathExists w pth ≠ (true, Some err))
  ∧ err_Error (errors_New "No path provided") = "No path provided".
Proof.
  unfold IsPathExists, genericIsPathExists.
  destruct (decide (pth = "")) as [->|Hne]; simpl.
  - repeat split; try done; try by intros [? _].
    + intros [= <-]. by left.
    + by intros [[_ ->]|[? _]].
  - destruct (os_Stat w pth) as [fi|e]; simpl.
    + repeat split; try done; eauto.
      * by intros (_ & ? & ? & _).
      * by intros [[? _]|(_ & ? & _)].
    + destruct (err_IsNotExist e) eqn:He; simpl.
      * repeat split; try done; eauto.
        -- by intros (_ & ? & ?).
        -- intros [[? _]|(_ & [= <-] & ?)]; congruence.
      * repeat split; try done.
        -- by intros (_ & ? & ?).
        -- intros (_ & ? & [= <-] & ?). congruence.
        -- intros [= <-]. by right.
        -- by intros [[? _]|(_ & [= <-] & _)].
Qed.

Lemma run_validation_failure (w : World) (errorMsg : string) :
  validateInputs w (readInputs w)
    (mkProc (EvStdout <$> config_lines (readInputs w)) [])
  = logFail w errorMsg (mkProc (EvStdout <$> config_lines (readInputs w)) []) →
  fails_validation_with w errorMsg.
Proof.
  intros Hval. unfold fails_validation_with, run, main.
  rewrite !bind_run, logConfigs_run. unfold prepareRequest. rewrite !bind_run.
  cbn [trace unclosed_files startProc app]. rewrite Hval, logFail_run.
  by rewrite logFail_events_tail.
Qed.

(** Runs the checks of lines 185-204 on inputs whose answers are known. *)
Ltac validation_step :=
  first
    [ rewrite bind_run
    | rewrite logFail_run
    | rewrite decide_True by done
    | rewrite decide_False by (try done; intros H'; by apply H')
    | progress simpl ].

(** X9. The message of a failed check names the check.  An empty binary
    path is reported as a missing input.  A binary or mapping path for
    which [os.Stat] fails is reported as not found when the error says
    that nothing is there, and as a failed check, with the error, for any
    other error.  An empty token is reported only after both paths have
    passed.  In each case the run is the configuration log followed by the
    export of the failure status and the error line, and the exit status
    is 1. *)
Theorem validation_diagnostics (w : World) :
  let i := readInputs w in
  (apkPath i = "" → fails_validation_with w "Missing required input: apk_path")
  ∧ (apkPath i ≠ "" → ∀ err, os_Stat w (apkPath i) = inr err →
     fails_validation_with w
       (if err_IsNotExist err
        then "No apk found to deploy. Specified path was: " +:+ apkPath i
        else "Failed to check if apk (" +:+ apkPath i +:+ ") exist, error: "
             +:+ err_GoString err))
  ∧ (IsPathExists w (apkPath i) = (true, None) → mappingPath i ≠ "" →
     ∀ err, os_Stat w (mappingPath i) = inr err →
     fails_validation_with w
       (if err_IsNotExist err
        then "No mapping found to deploy. Specified path was: " +:+ mappingPath i
        else "Failed to check if mapping (" +:+ mappingPath i +:+ ") exist, error: "
             +:+ err_GoString err))
  ∧ (IsPathExists w (apkPath i) = (true, None) →
     (mappingPath i ≠ "" → IsPathExists w (mappingPath i) = (true, None)) →
     apiToken i = "" →
     fails_validation_with w
       "No App api_token provided as environment variable. Terminating...").
Proof.
  intros i. subst i. split; [|split; [|split]].
  - intros Hapk. apply run_validation_failure.
    unfold validateInputs, checkPaths. rewrite Hapk.
    by repeat validation_step.
  - intros Hapk err Hstat. apply run_validation_failure.
    unfold validateInputs, checkPaths, IsPathExists, genericIsPathExists.
    rewrite Hstat. destruct (err_IsNotExist err); by repeat validation_step.
  - intros Hok Hmap err Hstat. apply run_validation_failure.
    assert (Hapk : apkPath (readInputs w) ≠ "").
    { intros Heq. rewrite Heq in Hok. discriminate Hok. }
    unfold validateInputs, checkPaths. rewrite Hok.
    unfold IsPathExists, genericIsPathExists. rewrite Hstat.
    destruct (err_IsNotExist err); by repeat validation_step.
  - intros Hok Hmapok Htok. apply run_validation_failure.
    assert (Hapk : apkPath (readInputs w) ≠ "").
    { intros Heq. rewrite Heq in Hok. discriminate Hok. }
    unfold validateInputs, checkPaths, checkToken. rewrite Hok, Htok.
    destruct (decide (mappingPath (readInputs w) ≠ "")) as [Hmap|Hmap].
    + rewrite (Hmapok Hmap). by repeat validation_step.
    + by repeat validation_step.
Qed.

Example missing_apk_diagnostic :
  last (printed (trace (run (demoWorld [("apk_path", "gone.apk");
                                        ("api_token", "secret")] answer200)).2))
  = Some (red_line "No apk found to deploy. Specified path was: gone.apk").
Proof. vm_compute. reflexivity. Qed.

(** ** [logFail] *)

(** X10. [logFail] never returns: whatever follows it is not run.  It
    runs [envman] once, for the failure status, prints a warning when
    that fails and then the error line in red, and ends the process with
    status 1; a failed export of the failure status changes neither the
    exit status nor the error line.  It opens and closes no file. *)
Theorem logFail_ends_the_process {A B : Type}
    (w : World) (errorMsg : string) (k : A → Run B) (σ : Proc) :
  (logFail w errorMsg ≫= k) σ = logFail w errorMsg σ
  ∧ logFail (A:=A) w errorMsg σ
    = (Exited 1, mkProc (trace σ ++ failure_tail w errorMsg) (unclosed_files σ))
  ∧ exported (failure_tail w errorMsg)
    = [(hockeyAppDeployStatusKey, hockeyAppDeployStatusFailed)]
  ∧ last (printed (failure_tail w errorMsg)) = Some (red_line errorMsg)
  ∧ (envman_Run w hockeyAppDeployStatusKey hockeyAppDeployStatusFailed = None →
     printed (failure_tail w errorMsg) = [red_line errorMsg]).
Proof.
  split; [|split; [|split; [|split]]].
  - rewrite bind_run, !logFail_run. reflexivity.
  - by rewrite logFail_run, logFail_events_tail.
  - rewrite <- logFail_events_tail. apply logFail_events_exported.
  - unfold failure_tail. by destruct (envman_Run w _ _).
  - intros Hok. unfold failure_tail. by rewrite Hok.
Qed.

(** ** The body of the request *)

Lemma requestFields_entries (i : Inputs) :
  field_part <$> map_to_list (requestFields i) ≡ₚ scalar_parts i.
Proof.
  unfold requestFields. rewrite map_to_list_to_map; [reflexivity|].
  simpl. apply (bool_decide_unpack _). vm_compute. reflexivity.
Qed.

Lemma requestFiles_entries (w : World) (i : Inputs) :
  file_part w <$> map_to_list (requestFiles (apkPath i) (mappingPath i))
  ≡ₚ binary_parts w i.
Proof.
  unfold requestFiles, binary_parts.
  destruct (decide (mappingPath i ≠ "")) as [Hmap|Hmap].
  - rewrite map_to_list_insert by done. rewrite map_to_list_singleton.
    simpl. apply perm_swap.
  - by rewrite map_to_list_singleton.
Qed.

(** X11. As [range] yields each entry of a map once, the body of the
    request that [main] hands to the client has, up to the order within
    each group, these parts and no others: first one part for each of the
    nine scalar fields, with its value even when that is empty, then the
    part "ipa" with the binary and, exactly when a mapping path is given,
    the part "dsym" with the mapping file; each file part carries the
    path as its file name and the bytes of the file. *)
Theorem request_body_parts (w : World) :
  request_ready w →
  range_faithful w →
  let i := readInputs w in
  ∃ request scalars files,
    network_calls (trace (run w).2) = [request]
    ∧ mw_parts (ReqBody request) = scalars ++ files
    ∧ scalars ≡ₚ scalar_parts i
    ∧ files ≡ₚ binary_parts w i.
Proof.
  intros Hready Hrange i.
  exists (request_sent w),
         (field_part <$> go_range w (requestFields i)),
         (file_part w <$> go_range w (requestFiles (apkPath i) (mappingPath i))).
  split; [exact (proj1 (network_calls_run w) Hready)|].
  split; [reflexivity|]. split.
  - rewrite (Hrange (requestFields i)). apply requestFields_entries.
  - rewrite (Hrange (requestFiles (apkPath i) (mappingPath i))).
    apply requestFiles_entries.
Qed.

Lemma demoWorld_range_faithful (env : list (string * string))
    (answer : option Response * option error) :
  range_faithful (demoWorld env answer).
Proof. intros m. reflexivity. Qed.

Lemma request_body_witness :
  let w := demoWorld demoEnv answer200 in
  ∃ request scalars files,
    network_calls (trace (run w).2) = [request]
    ∧ mw_parts (ReqBody request) = scalars ++ files
    ∧ scalars ≡ₚ scalar_parts (readInputs w)
    ∧ files ≡ₚ binary_parts w (readInputs w).
Proof.
  apply (request_body_parts (demoWorld demoEnv answer200)).
  - apply demoWorld_ready.
  - apply demoWorld_range_faithful.
Defined.

(** The parts of the request sent in a run with a mapping file. *)
Example demo_body_parts :
  (λ request, mw_parts (ReqBody request))
    <$> network_calls
          (trace (run (demoWorld (("mapping_path", "mapping.txt") :: demoEnv)
                                 answer200)).2)
  = [[FieldPart "status" ""; FieldPart "commit_sha" ""; FieldPart "mandatory" "1";
      FieldPart "notes_type" ""; FieldPart "notes" "hello"; FieldPart "notify" "";
      FieldPart "repository_url" ""; FieldPart "build_server_url" "";
      FieldPart "tags" "";
      FilePart "ipa" "app.apk" "contents of app.apk";
      FilePart "dsym" "mapping.txt" "contents of mapping.txt"]].
Proof. vm_compute. reflexivity. Qed.

(** ** Failure of [createRequest] *)

(** X12. With valid inputs, when a file cannot be opened or read to its
    end, or the URL does not parse, [createRequest] returns an error and
    the process exits with status 1 without a network call: the run is the
    log, the call of [createRequest] with its attempts to open files, and
    [logFail] with the error. *)
Theorem createRequest_failure_is_fatal (w : World) :
  let i := readInputs w in
  inputs_valid w i →
  ¬ (Forall (readable w) (go_range w (requestFiles (apkPath i) (mappingPath i)))
     ∧ url_Parse_err w (requestURL (appID i)) = None) →
  ∃ err,
    (createRequest w (requestURL (appID i)) (requestFields i)
       (requestFiles (apkPath i) (mappingPath i)) (before_createRequest i)).1
    = Returned (inr err)
    ∧ (run w).1 = Exited 1
    ∧ trace (run w).2
      = request_events w i
        ++ failure_tail w ("Failed to create request, error: " +:+ err_GoString err)
    ∧ network_calls (trace (run w).2) = [].
Proof.
  intros i Hv Hnot. subst i.
  assert (Hnr : ¬ request_ready w) by (intros (_ & ? & ?); by apply Hnot).
  rewrite (proj2 (network_calls_run w) Hnr).
  rewrite run_split.
  pose proof (preNetwork_valid w Hv) as Hval. cbv zeta in Hval. rewrite Hval.
  destruct (createRequest_run w (requestURL (appID (readInputs w)))
              (requestFields (readInputs w))
              (requestFiles (apkPath (readInputs w)) (mappingPath (readInputs w)))
              (before_createRequest (readInputs w))) as (r & Hrun & _).
  destruct r as [request|err].
  - exfalso. apply Hnot. apply (f_equal fst) in Hrun. simpl in Hrun.
    by apply createRequest_inl_built in Hrun as (_ & ? & ?).
  - exists err. rewrite Hrun. split; [done|].
    rewrite logFail_run, logFail_events_tail. cbn [fst snd trace unclosed_files].
    split; [done|]. split; [|done].
    unfold before_createRequest, request_events.
    cbn [trace unclosed_files app]. by rewrite <- !app_assoc.
Qed.

Lemma createRequest_failure_witness :
  let w := files_locked (demoWorld demoEnv answer200) in
  ∃ err,
    (createRequest w (requestURL (appID (readInputs w))) (requestFields (readInputs w))
       (requestFiles (apkPath (readInputs w)) (mappingPath (readInputs w)))
       (before_createRequest (readInputs w))).1
    = Returned (inr err)
    ∧ (run w).1 = Exited 1
    ∧ trace (run w).2
      = request_events w (readInputs w)
        ++ failure_tail w ("Failed to create request, error: " +:+ err_GoString err)
    ∧ network_calls (trace (run w).2) = [].
Proof.
  apply (createRequest_failure_is_fatal (files_locked (demoWorld demoEnv answer200))).
  - exact (proj1 (demoWorld_ready answer200)).
  - intros [Hall _]. vm_compute in Hall.
    apply Forall_cons in Hall as [(f & Hopen & _) _]. discriminate Hopen.
Defined.

(** ** Failed requests *)

(** X13. Once the request is sent, an error reported by the client is
    fatal even when a response came with it, whatever its status, and so
    is every response whose status is below 200 or above 300: the process
    exits with status 1, the body is never handed to [json.Unmarshal] and
    the only export is the failure status. *)
Theorem failed_request_is_fatal
    (w : World) (response : Response) (requestErr : option error) :
  request_ready w →
  http_Do w (request_sent w) = (Some response, requestErr) →
  requestErr ≠ None ∨ (StatusCode response < 200)%Z ∨ (StatusCode response > 300)%Z →
  (run w).1 = Exited 1
  ∧ network_calls (trace (run w).2) = [request_sent w]
  ∧ unmarshal_calls (trace (run w).2) = []
  ∧ exported (trace (run w).2)
    = [(hockeyAppDeployStatusKey, hockeyAppDeployStatusFailed)].
Proof.
  intros Hready Hdo Hbad.
  rewrite (proj1 (network_calls_run w) Hready).
  destruct (run_ready w Hready) as (o & evs & -> & _ & Ha & _).
  rewrite Hdo in Ha. cbn [fst snd trace] in *. trace_norm.
  assert (Hcode : requestErr = None → statusCodeFailed (StatusCode response) = true).
  { intros ->. destruct Hbad as [?|Hcode]; [done|]. unfold statusCodeFailed. lia. }
  inversion Ha; subst;
    try (specialize (Hcode eq_refl); congruence).
  - by repeat match goal with H : _ = _ |- _ => rewrite H end.
  - by repeat match goal with H : _ = _ |- _ => rewrite H end.
Qed.

Lemma failed_request_witness :
  let w := demoWorld demoEnv answer_redirect_refused in
  (run w).1 = Exited 1
  ∧ network_calls (trace (run w).2) = [request_sent w]
  ∧ unmarshal_calls (trace (run w).2) = []
  ∧ exported (trace (run w).2)
    = [(hockeyAppDeployStatusKey, hockeyAppDeployStatusFailed)].
Proof.
  apply (failed_request_is_fatal (demoWorld demoEnv answer_redirect_refused)
           (mkResponse 200 (body_three_urls, None))
           (Some (mkError "Post: stopped after 10 redirects" "&url.Error{Op:Post}"
                          false))).
  - exact (demoWorld_ready answer_redirect_refused).
  - reflexivity.
  - left. discriminate.
Defined.

(** ** The success status *)

(** X14. The success status is exported only after a good answer: when
    [envman] has been run for the deploy-status key with the value
    "success", the request was sent and the client answered with a
    readable response of accepted status whose body decoded without
    error; that export is then the first one. *)
Theorem success_exported_only_after_good_answer (w : World) :
  (hockeyAppDeployStatusKey, hockeyAppDeployStatusSuccess)
    ∈ exported (trace (run w).2) →
  request_ready w
  ∧ (∃ v, good_answer w (http_Do w (request_sent w)) v)
  ∧ head (exported (trace (run w).2))
    = Some (hockeyAppDeployStatusKey, hockeyAppDeployStatusSuccess).
Proof.
  intros Hin. destruct (ready_or_not w) as [Hready|Hnot].
  2:{ destruct (run_not_ready w Hnot) as (pre & msg & fs & Hrun & _ & _ & Hex & _).
      rewrite Hrun in Hin. cbn [snd trace] in Hin. trace_norm_in Hin.
      rewrite Hex in Hin. simpl in Hin.
      apply list_elem_of_singleton in Hin. discriminate Hin. }
  split; [done|].
  destruct (run_ready w Hready) as (o & evs & Hrun & _ & Ha & _).
  rewrite Hrun in *. cbn [snd trace] in *. trace_norm. trace_norm_in Hin.
  destruct (http_Do w (request_sent w)) as [resp rerr]. cbn [fst snd] in Ha.
  inversion Ha as [? | ? ? ? Hex | ? ? ? Hex | ? ? ? ? ? Hex | ? ? ? ? ? ? ? Hex
                   | response j v n kv e evs' Hst Hbody Hscan Hdec Hn Hfail Hex
                   | response j v evs' Hst Hbody Hscan Hdec Hex]; subst;
    try (rewrite Hex in Hin; apply list_elem_of_singleton in Hin; discriminate Hin).
  - by apply elem_of_nil in Hin.
  - split; [exists v, response, j; done|]. by rewrite Hex.
  - split; [exists v, response, j; done|]. by rewrite Hex.
Qed.

Lemma success_exported_witness :
  let w := demoWorld demoEnv answer200 in
  request_ready w
  ∧ (∃ v, good_answer w (http_Do w (request_sent w)) v)
  ∧ head (exported (trace (run w).2))
    = Some (hockeyAppDeployStatusKey, hockeyAppDeployStatusSuccess).
Proof.
  apply (success_exported_only_after_good_answer (demoWorld demoEnv answer200)).
  vm_compute. left.
Defined.

(** ** The files a run opens *)

Lemma opened_app (l l' : list event) : opened (l ++ l') = opened l ++ opened l'.
Proof. apply omap_app. Qed.

Lemma opened_cons (e : event) (l : list event) :
  opened (e :: l) = match e with EvOpen pth => [pth] | _ => [] end ++ opened l.
Proof. by destruct e. Qed.

Lemma opened_nil : opened [] = [].
Proof. reflexivity. Qed.

Lemma opened_stdout (ls : list string) : opened (EvStdout <$> ls) = [].
Proof. induction ls; auto. Qed.

Lemma opened_opens (ps : list string) : opened (EvOpen <$> ps) = ps.
Proof. induction ps; simpl; f_equal; auto. Qed.

Lemma opened_logFail (w : World) (errorMsg : string) :
  opened (logFail_events w errorMsg) = [].
Proof.
  rewrite logFail_events_tail. unfold failure_tail.
  by destruct (envman_Run w _ _).
Qed.

#[local] Hint Rewrite opened_app opened_cons opened_nil opened_stdout opened_opens
  opened_logFail : trace.

Lemma opened_request_events (w : World) (i : Inputs) :
  opened (request_events w i)
  = files_attempted w (go_range w (requestFiles (apkPath i) (mappingPath i))).
Proof. unfold request_events. by trace_norm. Qed.

(** Sending the request and handling the answer opens no file. *)
Lemma sendRequest_opens_nothing (w : World) (i : Inputs) (request : Request) (σ : Proc) :
  opened (trace (sendRequest w i request σ).2) = opened (trace σ).
Proof.
  unfold sendRequest, processResponse.
  send_exec.
  all: cbn [snd trace]; rewrite <- ?app_assoc; trace_norm; reflexivity.
Qed.

Lemma files_attempted_entries (w : World) (entries : list (string * string)) (pth : string) :
  pth ∈ files_attempted w entries → pth ∈ entries.*2.
Proof.
  induction entries as [|[key file] rest IH]; [done|]. simpl.
  intros [->|Hin]%elem_of_cons; [left|]. right.
  destruct (os_Open w file) as [f|]; [|by apply elem_of_nil in Hin].
  destruct (f_readErr f); [by apply elem_of_nil in Hin|]. by apply IH.
Qed.

Lemma files_attempted_readable (w : World) (entries : list (string * string)) :
  Forall (readable w) entries → files_attempted w entries = entries.*2.
Proof.
  induction 1 as [|[key file] rest (f & Hopen & Hread) _ IH]; [done|].
  simpl in *. by rewrite Hopen, Hread, IH.
Qed.

Lemma requestFiles_paths (w : World) (i : Inputs) :
  range_faithful w →
  (go_range w (requestFiles (apkPath i) (mappingPath i))).*2 ≡ₚ upload_paths i.
Proof.
  intros Hrange. rewrite (Hrange _). unfold requestFiles, upload_paths.
  destruct (decide (mappingPath i ≠ "")).
  - rewrite map_to_list_insert by done. rewrite map_to_list_singleton.
    simpl. apply perm_swap.
  - by rewrite map_to_list_singleton.
Qed.

(** The calls of [os.Open] of a whole run. *)
Lemma run_opened (w : World) :
  let i := readInputs w in
  (¬ inputs_valid w i ∧ opened (trace (run w).2) = [])
  ∨ (inputs_valid w i
     ∧ opened (trace (run w).2)
       = files_attempted w (go_range w (requestFiles (apkPath i) (mappingPath i)))).
Proof.
  intros i. subst i. rewrite run_split.
  pose proof (preNetwork_cases w) as Hcases. cbv zeta in Hcases.
  destruct Hcases as [(Hv & msg & ->)|[(Hv & msg & ->)|(Hv & r & _ & ->)]].
  - left. split; [done|]. cbn [snd trace]. by trace_norm.
  - right. split; [done|]. cbn [snd trace]. trace_norm.
    apply opened_request_events.
  - right. split; [done|]. rewrite sendRequest_opens_nothing. cbn [trace].
    apply opened_request_events.
Qed.

(** X15. The only files a run opens are the files it uploads.  As [range]
    yields each entry of a map once, every path handed to [os.Open] in a
    run, however the run ends, is the binary path or the mapping path
    given; a run that reaches the network has opened each of them once and
    nothing else, before and after the request is sent; a run whose inputs
    fail the checks opens no file at all. *)
Theorem run_opens_only_the_uploads (w : World) :
  range_faithful w →
  let i := readInputs w in
  (∀ pth, pth ∈ opened (trace (run w).2) → pth ∈ upload_paths i)
  ∧ (request_ready w → opened (trace (run w).2) ≡ₚ upload_paths i)
  ∧ (¬ inputs_valid w i → opened (trace (run w).2) = []).
Proof.
  intros Hrange i. subst i.
  destruct (run_opened w) as [[Hinv ->]|[Hv ->]]; split; [|split| |split].
  - by intros pth ?%elem_of_nil.
  - by intros (Hv & _).
  - done.
  - intros pth Hin. rewrite <- (requestFiles_paths w _ Hrange).
    by apply files_attempted_entries in Hin.
  - intros (_ & Hall & _). rewrite (files_attempted_readable w _ Hall).
    by apply requestFiles_paths.
  - done.
Qed.

Lemma run_opens_only_the_uploads_witness :
  let w := demoWorld (("mapping_path", "mapping.txt") :: demoEnv) answer404 in
  opened (trace (run w).2) ≡ₚ ["app.apk"; "mapping.txt"].
Proof.
  apply (proj1 (proj2 (run_opens_only_the_uploads
                         (demoWorld (("mapping_path", "mapping.txt") :: demoEnv)
                                    answer404)
                         (demoWorld_range_faithful _ _)))).
  split; [|split].
  - split; [done|]. split; [reflexivity|]. split; [|done].
    intros _. reflexivity.
  - vm_compute. constructor; [|constructor; [|constructor]];
      eexists; split; reflexivity.
  - reflexivity.
Defined.

Example demo_opened :
  opened (trace (run (demoWorld (("mapping_path", "mapping.txt") :: demoEnv)
                                answer404)).2)
  = ["app.apk"; "mapping.txt"].
Proof. vm_compute. reflexivity. Qed.
